(** * Verification of [tokenizers.py]: the n-gram vocabulary and tokenizer

    The Python module is embedded shallowly.  A text is a sequence of Unicode
    code points, a Unit is the code-point sequence of one regex match, an
    n-gram is the tuple of Units of one window.  The Python builtins the module
    relies on (slices, [range], [enumerate], the stable [sorted], the
    insertion-ordered [defaultdict], [re.findall]) are modelled first, then the
    classes. *)

From Stdlib Require Import Ascii String.
From stdpp Require Import base numbers list sorting gmap.

Local Open Scope Z_scope.

(** ** Python list builtins *)

Module PyList.
Section slices.
Context {A : Type}.

(** A slice bound is clamped into [0, len]: a negative bound counts from the
    end of the list. *)
Definition clamp (len i : Z) : Z :=
  if decide (i < 0) then Z.max 0 (len + i) else Z.min i len.

(** [l[a:b]] *)
Definition slice (l : list A) (a b : Z) : list A :=
  let len := Z.of_nat (length l) in
  let lo := clamp len a in
  let hi := clamp len b in
  take (Z.to_nat (hi - lo)) (drop (Z.to_nat lo) l).

(** [l[:b]] *)
Definition slice_to (l : list A) (b : Z) : list A :=
  take (Z.to_nat (clamp (Z.of_nat (length l)) b)) l.

(** [enumerate(l)] *)
Definition enumerate (l : list A) : list (nat * A) :=
  imap (λ i x, (i, x)) l.
End slices.

(** [range(m)] as the list of its values; empty when [m <= 0]. *)
Definition range (m : Z) : list Z :=
  Z.of_nat <$> seq 0 (Z.to_nat m).

Section sorted.
Context {A : Type} (key : A → nat).

(** One step of a stable descending insertion: the new element, which stood
    before everything in [s] in the input, passes the elements with a
    strictly larger key and stops in front of the first other one. *)
Fixpoint insert_desc (a : A) (s : list A) : list A :=
  match s with
  | [] => [a]
  | y :: s' =>
      if decide (key a < key y)%nat then y :: insert_desc a s' else a :: y :: s'
  end.

(** [sorted(l, key=key, reverse=True)]: Python's sort is stable, also with
    [reverse=True], and that determines the result uniquely. *)
Definition sorted_desc (l : list A) : list A :=
  foldr insert_desc [] l.
End sorted.
End PyList.

(** ** The insertion-ordered counting dictionary [defaultdict(int)] *)

Module Counter.
Section counter.
Context {K : Type} `{EqDecision K}.

(** The dictionary is the list of its items in insertion order.
    [d[k] += 1]: an existing key keeps its position; a missing key is
    created with the default 0, at the end, and incremented. *)
Fixpoint incr (d : list (K * nat)) (k : K) : list (K * nat) :=
  match d with
  | [] => [(k, (0 + 1)%nat)]
  | (k', c) :: d' =>
      if decide (k' = k) then (k', (c + 1)%nat) :: d' else (k', c) :: incr d' k
  end.
End counter.
End Counter.

(** ** The fragment of [re] used by the module *)

Module Re.
Section re.
Context {C : Type}.

(** Patterns: a character class, one or more characters of a class
    (greedy), and ordered alternation. None of them matches the empty
    string. *)
Inductive pattern : Type :=
| Class (p : C → bool)
| Plus (p : C → bool)
| Alt (r1 r2 : pattern).

Fixpoint take_class (p : C → bool) (t : list C) : list C :=
  match t with
  | c :: t' => if p c then c :: take_class p t' else []
  | [] => []
  end.

Fixpoint drop_class (p : C → bool) (t : list C) : list C :=
  match t with
  | c :: t' => if p c then drop_class p t' else t
  | [] => []
  end.

(** Match at the start of [t]: the matched text and the rest. *)
Fixpoint match_at (r : pattern) (t : list C) : option (list C * list C) :=
  match r with
  | Class p =>
      match t with
      | c :: t' => if p c then Some ([c], t') else None
      | [] => None
      end
  | Plus p =>
      match t with
      | c :: t' => if p c then Some (c :: take_class p t', drop_class p t') else None
      | [] => None
      end
  | Alt r1 r2 =>
      match match_at r1 t with
      | Some m => Some m
      | None => match_at r2 t
      end
  end.

(** [findall]: scan left to right; on a match emit it and go on behind it,
    otherwise move one character on. The fuel counts the iterations. *)
Fixpoint findall_loop (fuel : nat) (r : pattern) (t : list C) : list (list C) :=
  match fuel with
  | O => []
  | S fuel' =>
      match t with
      | [] => []
      | _ :: t' =>
          match match_at r t with
          | Some (m, rest) => m :: findall_loop fuel' r rest
          | None => findall_loop fuel' r t'
          end
      end
  end.

Definition findall (r : pattern) (t : list C) : list (list C) :=
  findall_loop (length t) r t.
End re.
Arguments pattern : clear implicits.
End Re.

(** ** Exceptions and the monad of method bodies *)

Inductive exn : Type :=
| Exception (msg : string)
| KeyError.

Inductive result (A : Type) : Type :=
| Ok (a : A)
| Raise (e : exn).
Arguments Ok {A} a.
Arguments Raise {A} e.

(** A method body reads and writes the attributes of [self] and may raise. *)
Definition M (S A : Type) : Type := S → result (A * S).

#[global] Instance M_ret {S} : MRet (M S) := λ A a s, Ok (a, s).
#[global] Instance M_bind {S} : MBind (M S) := λ A B f m s,
  match m s with
  | Ok (a, s') => f a s'
  | Raise e => Raise e
  end.

Definition raise {S A} (e : exn) : M S A := λ _, Raise e.
Definition get_attr {S A} (attr : S → A) : M S A := λ s, Ok (attr s, s).
Definition set_attr {S A} (upd : A → S → S) (a : A) : M S unit := λ s, Ok (tt, upd a s).

(** [d[k]] on a plain [dict] *)
Definition getitem {S} `{Countable K} {V} (d : gmap K V) (k : K) : M S V :=
  match d !! k with
  | Some v => mret v
  | None => raise KeyError
  end.

(** A dict comprehension stores its items one after the other, a later item
    replacing an earlier one with the same key. *)
Definition dict_of `{Countable K} {V} (items : list (K * V)) : gmap K V :=
  foldl (λ d kv, <[kv.1 := kv.2]> d) ∅ items.

(** ** Texts, Units and n-grams *)

(** A text is a sequence of code points; a Unit is the text of one match; an
    n-gram is a tuple of Units. *)
Abbreviation text := (list N).
Abbreviation Unit := (list N).
Abbreviation Ngram := (list (list N)).

(** The character categories [\w] and [\s] of [re] for [str] patterns: they
    come from the Unicode database of the interpreter, so they are taken as a
    parameter. *)
Class UnicodeTables : Type := {
  is_word : N → bool;
  is_space : N → bool
}.

(** [re.compile(r"\w+|[^\w\s]", re.UNICODE)] *)
Definition identify_words_regex `{UnicodeTables} : Re.pattern N :=
  Re.Alt (Re.Plus is_word) (Re.Class (λ c, negb (is_word c || is_space c))).

Definition convert_text_to_words `{UnicodeTables} (text : text) : list Unit :=
  Re.findall identify_words_regex text.

(** [[tuple(words[i:i + n]) for i in range(len(words) - n + 1)]] *)
Definition ngrams_of (n : Z) (words : list Unit) : list Ngram :=
  (λ i, PyList.slice words i (i + n)) <$> PyList.range (Z.of_nat (length words) - n + 1).

(** What [tokenize] returns: tuples, or ids when [return_token_ids] is set. *)
Inductive tokens : Type :=
| Ngrams (l : list Ngram)
| Ids (l : list nat).

(** ** The classes *)

Module Tokenizer.
Record t : Type := Build {
  vocab_size : Z;
  token_to_id : gmap Ngram nat;
  id_to_token : gmap nat Ngram
}.

Definition init (vocab_size : Z) : result t :=
  Ok (Build vocab_size ∅ ∅).

Definition tokenize (text : text) (return_token_ids : bool) : M t tokens :=
  raise (Exception "tokenize not implemented").

Definition train (corpus : list text) : M t unit :=
  raise (Exception "train not implemented").

Definition len : M t nat :=
  raise (Exception "__len__ not implemented").
End Tokenizer.

Module ReturnWordsTokenizer.
Definition tokenize `{UnicodeTables} (text : text) (return_token_ids : bool)
  : M Tokenizer.t (list Unit) :=
  mret (convert_text_to_words text).

Definition train (corpus : list text) : M Tokenizer.t unit :=
  mret tt.
End ReturnWordsTokenizer.

Module NgramTokenizer.
(** The attributes of the base class and the window length [n]. *)
Record t : Type := Build {
  super : Tokenizer.t;
  n : Z
}.

Definition vocab_size (self : t) : Z := Tokenizer.vocab_size (super self).
Definition token_to_id (self : t) : gmap Ngram nat := Tokenizer.token_to_id (super self).
Definition id_to_token (self : t) : gmap nat Ngram := Tokenizer.id_to_token (super self).

Definition set_token_to_id (d : gmap Ngram nat) (self : t) : t :=
  Build (Tokenizer.Build (vocab_size self) d (id_to_token self)) (n self).
Definition set_id_to_token (d : gmap nat Ngram) (self : t) : t :=
  Build (Tokenizer.Build (vocab_size self) (token_to_id self) d) (n self).

(** [__init__]: the base class stores [vocab_size] and two empty dicts,
    then [n] is stored. Nothing is checked. *)
Definition init (n vocab_size : Z) : result t :=
  match Tokenizer.init vocab_size with
  | Ok base => Ok (Build base n)
  | Raise e => Raise e
  end.

Definition tokenize `{UnicodeTables} (text : text) (return_token_ids : bool)
  : M t tokens :=
  let words := convert_text_to_words text in
  n ← get_attr n;
  let ngrams := ngrams_of n words in
  d ← get_attr token_to_id;
  if return_token_ids then
    token_ids ← mapM (λ ngram, getitem d ngram)
                     (filter (λ ngram, is_Some (d !! ngram)) ngrams);
    mret (Ids token_ids)
  else
    mret (Ngrams (filter (λ ngram, is_Some (d !! ngram)) ngrams)).

(** The counting loop of [train]. *)
Definition count_ngrams `{UnicodeTables} (n : Z) (corpus : list text)
  : list (Ngram * nat) :=
  foldl (λ token_counts text,
           let words := convert_text_to_words text in
           let ngrams := ngrams_of n words in
           foldl Counter.incr token_counts ngrams)
        [] corpus.

(** The ranked and truncated list of items of [train]. *)
Definition rank_ngrams (vocab_size : Z) (token_counts : list (Ngram * nat))
  : list (Ngram * nat) :=
  let sorted_ngrams := PyList.sorted_desc snd token_counts in
  if decide (vocab_size ≠ -1) then PyList.slice_to sorted_ngrams vocab_size
  else sorted_ngrams.

(** The items [ngram: idx] of the comprehension over
    [enumerate(sorted_ngrams)]. *)
Definition id_items (sorted_ngrams : list (Ngram * nat)) : list (Ngram * nat) :=
  (λ '(idx, (ngram, _)), (ngram, idx)) <$> PyList.enumerate sorted_ngrams.

(** The items [idx: ngram] of the comprehension over [token_to_id.items()].
    The dict is a finite map here, so its items come in the order of the map
    and not in insertion order; the ids are distinct, so that the order of
    the items has no effect on [id_to_token]. *)
Definition token_items (d : gmap Ngram nat) : list (nat * Ngram) :=
  (λ '(ngram, idx), (idx, ngram)) <$> map_to_list d.

Definition train `{UnicodeTables} (corpus : list text) : M t unit :=
  n ← get_attr n;
  let token_counts := count_ngrams n corpus in
  vocab_size ← get_attr vocab_size;
  let sorted_ngrams := rank_ngrams vocab_size token_counts in
  set_attr set_token_to_id (dict_of (id_items sorted_ngrams));;
  d ← get_attr token_to_id;
  set_attr set_id_to_token (dict_of (token_items d)).

Definition len : M t nat :=
  d ← get_attr token_to_id;
  mret (size d).
End NgramTokenizer.

(** ** The ASCII part of the Unicode tables, and text literals *)

Definition ascii_is_word (c : N) : bool :=
  (bool_decide (48 ≤ c ≤ 57) || bool_decide (65 ≤ c ≤ 90)
   || bool_decide (97 ≤ c ≤ 122) || bool_decide (c = 95))%N.

Definition ascii_is_space (c : N) : bool :=
  (bool_decide (9 ≤ c ≤ 13) || bool_decide (28 ≤ c ≤ 32))%N.

(** Tables that are right on the code points below 128 and class every other
    code point as punctuation; they serve for ASCII texts only. *)
Definition ascii_tables : UnicodeTables :=
  {| is_word := ascii_is_word; is_space := ascii_is_space |}.

Definition is_ascii (c : N) : Prop := (c < 128)%N.

(** Tables agree with the Unicode database on ASCII. *)
Definition ascii_faithful (U : UnicodeTables) : Prop :=
  ∀ c, is_ascii c →
    @is_word U c = ascii_is_word c ∧ @is_space U c = ascii_is_space c.

Definition str (s : string) : list N :=
  N_of_ascii <$> list_ascii_of_string s.

(** ** The vocabulary as the specification describes it *)

(** All windows of the corpus, in the order of the scan. *)
Definition corpus_windows `{UnicodeTables} (n : Z) (corpus : list text) : list Ngram :=
  corpus ≫= (λ text, ngrams_of n (convert_text_to_words text)).

(** Number of occurrences of [g]. *)
Definition frequency (g : Ngram) (ws : list Ngram) : nat :=
  length (filter (λ x, x = g) ws).

(** Position of the first occurrence of [g] (the length when there is none). *)
Fixpoint first_occurrence (g : Ngram) (ws : list Ngram) : nat :=
  match ws with
  | [] => 0
  | x :: ws' => if decide (x = g) then 0 else S (first_occurrence g ws')
  end.

(** The state after a method call on [s], when the call returns. *)
Definition state_after {S A} (m : M S A) (s : S) : option S :=
  match m s with
  | Ok (_, s') => Some s'
  | Raise _ => None
  end.

(** [x] is ranked before [y]: its key is larger, or the keys are equal and
    [x] comes first in the order [P]. *)
Definition ranks_before {A} (key : A → nat) (P : relation A) : relation A :=
  λ x y, (key y < key x)%nat ∨ (key x = key y ∧ P x y).

(** The order of the first occurrences among the windows [ws]. *)
Definition occurs_first (ws : list Ngram) : relation Ngram :=
  λ a b, (first_occurrence a ws < first_occurrence b ws)%nat.

(** Number of distinct n-grams among the windows [ws]. *)
Definition distinct (ws : list Ngram) : nat :=
  length (remove_dups ws).

(** * Properties *)

(** ** The examples of the docstrings *)

Example segment_sample :
  @convert_text_to_words ascii_tables (str "This movie was really bad, but bad.")
  = str <$> ["This"; "movie"; "was"; "really"; "bad"; ","; "but"; "bad"; "."]%string.
Proof. vm_compute. reflexivity. Qed.

Example train_sample :
  (d ← state_after (@NgramTokenizer.train ascii_tables
        [str "This movie was good"; str "This movie was bad"])
        (NgramTokenizer.Build (Tokenizer.Build (-1) ∅ ∅) 1);
   Some ((λ w, NgramTokenizer.token_to_id d !! [str w]) <$> ["This"; "movie"; "was"; "good"; "bad"; "great"]%string,
         (λ i, NgramTokenizer.id_to_token d !! i) <$> [0;1;2;3;4;5]%nat))
  = Some ([Some 0; Some 1; Some 2; Some 3; Some 4; None]%nat,
          [Some [str "This"]; Some [str "movie"]; Some [str "was"]; Some [str "good"]; Some [str "bad"]; None]).
Proof. vm_compute. reflexivity. Qed.


Example tokenize_sample :
  (d ← state_after (@NgramTokenizer.train ascii_tables
        [str "This movie was good"; str "This movie was bad"])
        (NgramTokenizer.Build (Tokenizer.Build (-1) ∅ ∅) 1);
   Some (@NgramTokenizer.tokenize ascii_tables (str "This movie was great") false d,
         @NgramTokenizer.tokenize ascii_tables (str "This movie was great") true d,
         @NgramTokenizer.len d))
  = (d ← state_after (@NgramTokenizer.train ascii_tables
        [str "This movie was good"; str "This movie was bad"])
        (NgramTokenizer.Build (Tokenizer.Build (-1) ∅ ∅) 1);
     Some (Ok (Ngrams [[str "This"]; [str "movie"]; [str "was"]], d),
           Ok (Ids [0; 1; 2]%nat, d),
           Ok (5%nat, d))).
Proof. vm_compute. reflexivity. Qed.

(** ** Slices, ranges and windows *)

Section windows.
Context {A : Type}.
Implicit Types (l : list A) (n : Z) (i : nat).

Lemma range_length (m : Z) : length (PyList.range m) = Z.to_nat m.
Proof. unfold PyList.range. by rewrite length_fmap, length_seq. Qed.

Lemma range_lookup (m : Z) i :
  (i < Z.to_nat m)%nat → PyList.range m !! i = Some (Z.of_nat i).
Proof.
  intros Hi. unfold PyList.range.
  rewrite list_lookup_fmap, lookup_seq_lt by done. done.
Qed.

Lemma clamp_inside (len i : Z) : 0 ≤ i ≤ len → PyList.clamp len i = i.
Proof. intros ?. unfold PyList.clamp. case_decide; lia. Qed.

Lemma slice_window l i n :
  0 ≤ n → Z.of_nat i + n ≤ Z.of_nat (length l) →
  PyList.slice l (Z.of_nat i) (Z.of_nat i + n) = take (Z.to_nat n) (drop i l).
Proof.
  intros Hn Hle. unfold PyList.slice. cbv zeta.
  rewrite !clamp_inside by lia.
  by replace (Z.to_nat (Z.of_nat i + n - Z.of_nat i)) with (Z.to_nat n) by lia;
     rewrite Nat2Z.id.
Qed.

Lemma slice_to_take l (b : Z) :
  0 ≤ b → PyList.slice_to l b = take (Z.to_nat b) l.
Proof.
  intros Hb. unfold PyList.slice_to, PyList.clamp.
  case_decide; [lia|].
  destruct (decide (b ≤ Z.of_nat (length l))).
  - by rewrite Z.min_l by lia.
  - rewrite Z.min_r by lia. rewrite Nat2Z.id.
    rewrite !take_ge by lia. done.
Qed.

Lemma slice_to_drop_last l (b : Z) :
  b < 0 → PyList.slice_to l b = take (length l - Z.to_nat (- b)) l.
Proof.
  intros Hb. unfold PyList.slice_to, PyList.clamp.
  case_decide; [|lia]. f_equal. lia.
Qed.
End windows.

Lemma ngrams_of_length (n : Z) (words : list Unit) :
  length (ngrams_of n words) = Z.to_nat (Z.of_nat (length words) - n + 1).
Proof. unfold ngrams_of. by rewrite length_fmap, range_length. Qed.

Lemma ngrams_of_lookup (n : Z) (words : list Unit) (i : nat) (g : Ngram) :
  1 ≤ n → ngrams_of n words !! i = Some g →
  g = take (Z.to_nat n) (drop i words) ∧ Z.of_nat (length g) = n.
Proof.
  intros Hn Hg.
  assert (Hi : (i < Z.to_nat (Z.of_nat (length words) - n + 1))%nat).
  { rewrite <-ngrams_of_length. by eapply lookup_lt_Some. }
  unfold ngrams_of in Hg.
  rewrite list_lookup_fmap, range_lookup in Hg by done.
  injection Hg as <-.
  rewrite slice_window by lia. split; [done|].
  rewrite length_take, length_drop. lia.
Qed.

(** C5: for [n >= 1] a document of [k] Units has [max(0, k - n + 1)] windows,
    none when [k < n]; the window at position [i] is the [n] Units from
    position [i] on, so equal windows at different positions are all kept. *)
Theorem window_count (n : Z) (words : list Unit) :
  1 ≤ n →
  Z.of_nat (length (ngrams_of n words)) = Z.max 0 (Z.of_nat (length words) - n + 1)
  ∧ (Z.of_nat (length words) < n → ngrams_of n words = [])
  ∧ (∀ (i : nat), Z.of_nat i < Z.max 0 (Z.of_nat (length words) - n + 1) →
       ngrams_of n words !! i = Some (take (Z.to_nat n) (drop i words)))
  ∧ (∀ (i : nat) g, ngrams_of n words !! i = Some g → Z.of_nat (length g) = n).
Proof.
  intros Hn. split_and!.
  - rewrite ngrams_of_length. lia.
  - intros Hk. apply length_zero_iff_nil. rewrite ngrams_of_length. lia.
  - intros i Hi.
    destruct (ngrams_of n words !! i) as [g|] eqn:Hg.
    + by destruct (ngrams_of_lookup n words i g Hn Hg) as [-> _].
    + apply lookup_ge_None in Hg. rewrite ngrams_of_length in Hg. lia.
  - intros i g Hg. by destruct (ngrams_of_lookup n words i g Hn Hg).
Qed.

Lemma window_count_witness :
  1 ≤ 2
  ∧ ngrams_of 2 (str <$> ["a"; "b"; "a"; "b"]%string)
    = [[str "a"; str "b"]; [str "b"; str "a"]; [str "a"; str "b"]]
  ∧ Z.of_nat (length (ngrams_of 2 (str <$> ["a"; "b"; "a"; "b"]%string)))
    = Z.max 0 (Z.of_nat (length (str <$> ["a"; "b"; "a"; "b"]%string)) - 2 + 1).
Proof.
  split; [lia|]. split; [reflexivity|].
  exact (proj1 (window_count 2 (str <$> ["a"; "b"; "a"; "b"]%string) ltac:(lia))).
Defined.

(** ** [findall] and the segmenter *)

Section findall.
Context {C : Type}.
Implicit Types (p : C → bool) (r : Re.pattern C) (t m rest : list C).

Lemma take_drop_class p t : Re.take_class p t ++ Re.drop_class p t = t.
Proof. induction t as [|c t IH]; simpl; [done|]. destruct (p c); simpl; by f_equal. Qed.

Lemma match_at_split r t m rest :
  Re.match_at r t = Some (m, rest) → t = m ++ rest ∧ m ≠ [].
Proof.
  revert m rest. induction r as [p|p|r1 IH1 r2 IH2]; intros m rest; simpl.
  - destruct t as [|c t]; [done|]. destruct (p c); [|done].
    by intros [= <- <-].
  - destruct t as [|c t]; [done|]. destruct (p c); [|done].
    intros [= <- <-]. simpl. by rewrite take_drop_class.
  - destruct (Re.match_at r1 t) as [[m1 rest1]|] eqn:H1.
    + intros [= <- <-]. by apply IH1.
    + apply IH2.
Qed.

(** Any fuel from the length of the text on gives the same matches. *)
Lemma findall_loop_fuel r (f1 f2 : nat) t :
  (length t ≤ f1)%nat → (length t ≤ f2)%nat →
  Re.findall_loop f1 r t = Re.findall_loop f2 r t.
Proof.
  revert f2 t. induction f1 as [|f1 IH]; intros f2 t H1 H2.
  - destruct t; [|simpl in H1; lia]. by destruct f2.
  - destruct f2 as [|f2]; [destruct t; [done|simpl in H2; lia]|].
    destruct t as [|c t]; [done|]. cbn [Re.findall_loop].
    destruct (Re.match_at r (c :: t)) as [[m rest]|] eqn:Hm.
    + f_equal. apply match_at_split in Hm as [Heq Hne].
      assert (length rest < length (c :: t))%nat.
      { rewrite Heq, length_app. destruct m; [done|]. simpl. lia. }
      simpl in *. apply IH; lia.
    + simpl in *. apply IH; lia.
Qed.

Lemma findall_nil r : Re.findall r [] = [].
Proof. done. Qed.

Lemma findall_match r t m rest :
  Re.match_at r t = Some (m, rest) → Re.findall r t = m :: Re.findall r rest.
Proof.
  intros Hm. unfold Re.findall. destruct t as [|c t].
  { by apply match_at_split in Hm as [? ?]; destruct m. }
  cbn [length Re.findall_loop]. rewrite Hm. f_equal.
  apply match_at_split in Hm as [Heq Hne].
  apply findall_loop_fuel; [|done].
  apply (f_equal length) in Heq. rewrite length_app in Heq.
  destruct m; [done|]. simpl in Heq. lia.
Qed.

Lemma findall_skip r c t :
  Re.match_at r (c :: t) = None → Re.findall r (c :: t) = Re.findall r t.
Proof. intros Hm. unfold Re.findall. cbn [length Re.findall_loop]. by rewrite Hm. Qed.

Lemma take_class_run p run t :
  Forall (λ c, p c = true) run → (∀ c t', t = c :: t' → p c = false) →
  Re.take_class p (run ++ t) = run ∧ Re.drop_class p (run ++ t) = t.
Proof.
  intros Hrun Hstop. induction Hrun as [|c run Hc _ [IH1 IH2]]; simpl.
  - destruct t as [|c t']; [done|]. simpl. by rewrite (Hstop c t').
  - rewrite Hc. by rewrite IH1, IH2.
Qed.

Lemma take_class_ext (P : C → Prop) p1 p2 t :
  (∀ c, P c → p1 c = p2 c) → Forall P t →
  Re.take_class p1 t = Re.take_class p2 t
  ∧ Re.drop_class p1 t = Re.drop_class p2 t
  ∧ Forall P (Re.drop_class p1 t).
Proof.
  intros Hp Ht. induction Ht as [|c t Hc Ht (IH1 & IH2 & IH3)]; simpl; [done|].
  rewrite <-(Hp c Hc). destruct (p1 c).
  - by rewrite IH1.
  - split_and!; [done|done|]. by constructor.
Qed.
End findall.

Section segmenter.
Context `{U : UnicodeTables}.
Implicit Types (c : N) (t run : text).

Lemma segment_nil : convert_text_to_words [] = [].
Proof. done. Qed.

Lemma segment_run run t :
  run ≠ [] → Forall (λ c, is_word c = true) run →
  (∀ c t', t = c :: t' → is_word c = false) →
  convert_text_to_words (run ++ t) = run :: convert_text_to_words t.
Proof.
  intros Hne Hrun Hstop. unfold convert_text_to_words.
  apply findall_match.
  destruct run as [|c run]; [done|]. apply Forall_cons in Hrun as [Hc Hrun].
  simpl. rewrite Hc.
  by destruct (take_class_run is_word run t Hrun Hstop) as [-> ->].
Qed.

Lemma segment_punct c t :
  is_word c = false → is_space c = false →
  convert_text_to_words (c :: t) = [c] :: convert_text_to_words t.
Proof.
  intros Hw Hs. unfold convert_text_to_words. apply findall_match.
  simpl. by rewrite Hw, Hs.
Qed.

Lemma segment_space c t :
  is_word c = false → is_space c = true →
  convert_text_to_words (c :: t) = convert_text_to_words t.
Proof.
  intros Hw Hs. unfold convert_text_to_words. apply findall_skip.
  simpl. by rewrite Hw, Hs.
Qed.
End segmenter.

(** On a text of code points in [P] the matches depend on the tables on [P]
    only. *)
Lemma segment_tables_ext (U1 U2 : UnicodeTables) (P : N → Prop) (t : text) :
  (∀ c, P c → @is_word U1 c = @is_word U2 c ∧ @is_space U1 c = @is_space U2 c) →
  Forall P t →
  @convert_text_to_words U1 t = @convert_text_to_words U2 t.
Proof.
  intros Hagree. unfold convert_text_to_words, Re.findall.
  generalize (length t) as fuel. intros fuel. revert t.
  induction fuel as [|fuel IH]; intros t Ht; [done|].
  destruct t as [|c t]; [done|]. cbn [Re.findall_loop].
  apply Forall_cons in Ht as [Hc Ht].
  destruct (Hagree c Hc) as [Hw Hs].
  destruct (take_class_ext P (@is_word U1) (@is_word U2) t) as (E1 & E2 & E3);
    [by intros c' Hc'; apply Hagree | done |].
  simpl. rewrite <-Hw, <-Hs, <-E1, <-E2.
  destruct (@is_word U1 c); simpl.
  - f_equal. by apply IH.
  - destruct (@is_space U1 c); simpl; [|f_equal]; by apply IH.
Qed.

(** C6: the segmenter turns each maximal run of word characters into one
    Unit, each other character that is not whitespace into a Unit of its own,
    and drops whitespace, from left to right; the empty text has no Units, and
    the sample sentence of the specification is split as stated (for any
    tables that are right on ASCII). *)
Theorem segment_units (U : UnicodeTables) :
  convert_text_to_words [] = []
  ∧ (∀ run t, run ≠ [] → Forall (λ c, is_word c = true) run →
       (∀ c t', t = c :: t' → is_word c = false) →
       convert_text_to_words (run ++ t) = run :: convert_text_to_words t)
  ∧ (∀ c t, is_word c = false → is_space c = false →
       convert_text_to_words (c :: t) = [c] :: convert_text_to_words t)
  ∧ (∀ c t, is_word c = false → is_space c = true →
       convert_text_to_words (c :: t) = convert_text_to_words t)
  ∧ (ascii_faithful U →
       convert_text_to_words (str "This movie was really bad, but bad.")
       = str <$> ["This"; "movie"; "was"; "really"; "bad"; ","; "but"; "bad"; "."]%string).
Proof.
  split_and!.
  - apply segment_nil.
  - apply segment_run.
  - apply segment_punct.
  - apply segment_space.
  - intros HU.
    rewrite (segment_tables_ext U ascii_tables is_ascii).
    + vm_compute. reflexivity.
    + intros c Hc. apply (HU c Hc).
    + vm_compute. repeat constructor.
Qed.

Lemma ascii_tables_faithful : ascii_faithful ascii_tables.
Proof. intros c _. done. Qed.

Lemma segment_units_witness :
  ascii_faithful ascii_tables
  ∧ @convert_text_to_words ascii_tables (str "This movie was really bad, but bad.")
    = str <$> ["This"; "movie"; "was"; "really"; "bad"; ","; "but"; "bad"; "."]%string
  ∧ @convert_text_to_words ascii_tables (str "bad" ++ str ", but")
    = str "bad" :: @convert_text_to_words ascii_tables (str ", but").
Proof.
  split; [exact ascii_tables_faithful|]. split.
  - exact (proj2 (proj2 (proj2 (proj2 (segment_units ascii_tables))))
             ascii_tables_faithful).
  - apply (proj1 (proj2 (segment_units ascii_tables))).
    + done.
    + vm_compute. repeat constructor.
    + intros c t' [= <- _]. reflexivity.
Defined.

(** ** The counting dictionary *)

Lemma StronglySorted_weaken {A} (R1 R2 : relation A) (l : list A) :
  (∀ x y, x ∈ l → y ∈ l → R1 x y → R2 x y) →
  StronglySorted R1 l → StronglySorted R2 l.
Proof.
  intros HR Hl. induction Hl as [|a l Hl IH Ha]; constructor.
  - apply IH. intros x y Hx Hy. apply HR; by right.
  - apply Forall_forall. intros y Hy.
    apply HR; [by left|by right|]. by eapply Forall_forall in Ha.
Qed.

Section counting.
Implicit Types (g k : Ngram) (ws ks : list Ngram) (f : Ngram → nat).

Lemma frequency_snoc g ws k :
  frequency k (ws ++ [g]) = (frequency k ws + if decide (g = k) then 1 else 0)%nat.
Proof.
  unfold frequency. rewrite filter_app, length_app. f_equal.
  rewrite filter_cons. by case_decide.
Qed.

Lemma frequency_zero g ws : g ∉ ws → frequency g ws = 0%nat.
Proof.
  intros Hg. unfold frequency. induction ws as [|x ws IH]; [done|].
  apply not_elem_of_cons in Hg as [Hne Hg].
  rewrite filter_cons. case_decide; [congruence|by apply IH].
Qed.

Lemma frequency_pos g ws : g ∈ ws → (0 < frequency g ws)%nat.
Proof.
  intros Hg. unfold frequency. induction ws as [|x ws IH].
  { by apply elem_of_nil in Hg. }
  rewrite filter_cons. case_decide; simpl; [lia|].
  apply elem_of_cons in Hg as [->|Hg]; [done|by apply IH].
Qed.

Lemma first_occurrence_lt g ws : g ∈ ws → (first_occurrence g ws < length ws)%nat.
Proof.
  induction ws as [|x ws IH]; intros Hg; [by apply elem_of_nil in Hg|].
  simpl. case_decide; [lia|].
  apply elem_of_cons in Hg as [->|Hg]; [done|]. specialize (IH Hg). lia.
Qed.

Lemma first_occurrence_app_in g ws ws' :
  g ∈ ws → first_occurrence g (ws ++ ws') = first_occurrence g ws.
Proof.
  induction ws as [|x ws IH]; intros Hg; [by apply elem_of_nil in Hg|].
  simpl. case_decide; [done|].
  apply elem_of_cons in Hg as [->|Hg]; [done|]. by rewrite IH.
Qed.

Lemma first_occurrence_app_notin g ws ws' :
  g ∉ ws → first_occurrence g (ws ++ ws') = (length ws + first_occurrence g ws')%nat.
Proof.
  induction ws as [|x ws IH]; intros Hg; [done|].
  apply not_elem_of_cons in Hg as [Hne Hg].
  simpl. case_decide; [congruence|]. by rewrite IH.
Qed.

Lemma incr_absent f ks g :
  g ∉ ks →
  Counter.incr ((λ k, (k, f k)) <$> ks) g = ((λ k, (k, f k)) <$> ks) ++ [(g, 1%nat)].
Proof.
  induction ks as [|k ks IH]; intros Hg; [done|].
  apply not_elem_of_cons in Hg as [Hne Hg].
  rewrite fmap_cons. cbn [Counter.incr app].
  case_decide; [congruence|]. by rewrite IH.
Qed.

Lemma incr_present f ks g :
  NoDup ks → g ∈ ks →
  Counter.incr ((λ k, (k, f k)) <$> ks) g
  = (λ k, (k, if decide (g = k) then (f k + 1)%nat else f k)) <$> ks.
Proof.
  induction ks as [|k ks IH]; intros Hnd Hg; [by apply elem_of_nil in Hg|].
  apply NoDup_cons in Hnd as [Hk Hnd]. rewrite !fmap_cons. cbn [Counter.incr].
  destruct (decide (k = g)) as [->|Hne].
  - rewrite decide_True by done. f_equal.
    apply Forall_fmap_ext_1, Forall_forall. intros k' Hk'.
    rewrite decide_False; [done|]. by intros <-.
  - rewrite (decide_False (P := g = k)) by done. f_equal.
    apply elem_of_cons in Hg as [->|Hg]; [done|]. by apply IH.
Qed.

(** After counting the windows [ws], the dictionary holds each distinct
    window once, with its number of occurrences, in the order of the first
    occurrences. *)
Lemma count_fold_spec ws :
  ∃ ks, foldl Counter.incr [] ws = (λ k, (k, frequency k ws)) <$> ks
        ∧ NoDup ks
        ∧ (∀ g, g ∈ ks ↔ g ∈ ws)
        ∧ StronglySorted (occurs_first ws) ks.
Proof.
  induction ws as [|g ws (ks & Hfold & Hnd & Hin & Hord)] using rev_ind.
  { exists []. split_and!; [done|constructor|done|constructor]. }
  rewrite foldl_snoc, Hfold.
  assert (Hold : StronglySorted (occurs_first (ws ++ [g])) ks).
  { eapply StronglySorted_weaken; [|exact Hord].
    intros a b Ha Hb. unfold occurs_first.
    by rewrite !first_occurrence_app_in by by apply Hin. }
  destruct (decide (g ∈ ws)) as [Hg|Hg].
  - exists ks. split_and!; [|done| |done].
    + rewrite incr_present by (by try apply Hin).
      apply Forall_fmap_ext_1, Forall_forall. intros k _.
      rewrite frequency_snoc. case_decide; f_equal; lia.
    + intros k. rewrite elem_of_app, list_elem_of_singleton, Hin.
      split; [by left|]. by intros [?| ->].
  - exists (ks ++ [g]). split_and!.
    + rewrite incr_absent by (by rewrite Hin).
      rewrite fmap_app. f_equal.
      * apply Forall_fmap_ext_1, Forall_forall. intros k Hk.
        rewrite frequency_snoc, decide_False; [by rewrite Nat.add_0_r|].
        intros <-. by apply Hg, Hin.
      * simpl. rewrite frequency_snoc, decide_True, frequency_zero by done. done.
    + apply NoDup_app. split_and!; [done| |apply NoDup_singleton].
      intros k Hk ->%list_elem_of_singleton. by apply Hg, Hin.
    + intros k. rewrite !elem_of_app, Hin. done.
    + apply StronglySorted_app. split_and!; [|done|repeat constructor].
      intros a b Ha ->%list_elem_of_singleton.
      apply Hin in Ha. unfold occurs_first.
      rewrite first_occurrence_app_in by done.
      rewrite first_occurrence_app_notin by done.
      pose proof (first_occurrence_lt a ws Ha). lia.
Qed.

Lemma count_ngrams_fold `{UnicodeTables} (n : Z) (corpus : list text) :
  NgramTokenizer.count_ngrams n corpus
  = foldl Counter.incr [] (corpus_windows n corpus).
Proof.
  unfold NgramTokenizer.count_ngrams, corpus_windows.
  generalize (@nil (Ngram * nat)) as d.
  induction corpus as [|t corpus IH]; intros d; [done|].
  rewrite bind_cons, foldl_app. cbn [foldl]. apply IH.
Qed.
End counting.

(** ** The stable descending sort *)

Section sorted.
Context {A : Type} (key : A → nat).
Implicit Types (a : A) (l s : list A) (P : relation A).

Lemma insert_desc_perm a s : PyList.insert_desc key a s ≡ₚ a :: s.
Proof.
  induction s as [|y s IH]; simpl; [done|].
  case_decide; [|done]. rewrite IH. apply Permutation_swap.
Qed.

Lemma sorted_desc_perm l : PyList.sorted_desc key l ≡ₚ l.
Proof.
  induction l as [|a l IH]; simpl; [done|].
  by rewrite insert_desc_perm, IH.
Qed.

Lemma ranks_before_key P x y : ranks_before key P x y → (key y ≤ key x)%nat.
Proof. intros [?|[? _]]; lia. Qed.

Lemma ranks_before_ge P x y :
  (key y ≤ key x)%nat → P x y → ranks_before key P x y.
Proof.
  intros Hle HP. destruct (decide (key y < key x)%nat); [by left|].
  right. split; [lia|done].
Qed.

(** An element that precedes all of [s] in the input goes behind the larger
    keys only. *)
Lemma insert_desc_sorted P a s :
  Forall (P a) s →
  StronglySorted (ranks_before key P) s →
  StronglySorted (ranks_before key P) (PyList.insert_desc key a s).
Proof.
  intros Ha Hs. induction Hs as [|y s Hs IH Hy]; simpl.
  { repeat constructor. }
  apply Forall_cons in Ha as [Hay Ha]. case_decide as Hlt.
  - constructor; [by apply IH|].
    rewrite insert_desc_perm. constructor; [by left|done].
  - constructor; [by constructor|].
    constructor.
    + apply ranks_before_ge; [lia|done].
    + apply Forall_forall. intros z Hz.
      apply ranks_before_ge; [|by eapply Forall_forall in Ha].
      eapply Forall_forall in Hy; [|exact Hz].
      apply ranks_before_key in Hy. lia.
Qed.

(** Stability: on an input in the order [P], equal keys stay in that order. *)
Lemma sorted_desc_stable P l :
  StronglySorted P l →
  StronglySorted (ranks_before key P) (PyList.sorted_desc key l).
Proof.
  induction 1 as [|a l Hl IH Ha]; simpl; [constructor|].
  apply insert_desc_sorted; [|done].
  by rewrite sorted_desc_perm.
Qed.
End sorted.

(** ** Dict comprehensions *)

Section dict_of.
Context `{Countable K} {V : Type}.
Implicit Types (items : list (K * V)).

Lemma dict_of_list_to_map items :
  NoDup items.*1 → dict_of items = list_to_map items.
Proof.
  unfold dict_of. induction items as [|[k v] items IH] using rev_ind; [done|].
  rewrite fmap_app, NoDup_app. intros (Hnd & Hk & _).
  rewrite foldl_snoc, IH by done. simpl.
  rewrite list_to_map_snoc; [done|].
  intros Hin. apply (Hk k Hin). simpl. by left.
Qed.

Lemma dict_of_lookup items k v :
  NoDup items.*1 → dict_of items !! k = Some v ↔ (k, v) ∈ items.
Proof.
  intros Hnd. rewrite dict_of_list_to_map by done.
  symmetry. by apply elem_of_list_to_map.
Qed.

Lemma dict_of_size items : NoDup items.*1 → size (dict_of items) = length items.
Proof.
  intros Hnd. rewrite dict_of_list_to_map by done.
  by apply map_size_list_to_map.
Qed.
End dict_of.

(** ** [train] *)

Section train.
Context `{U : UnicodeTables}.
Implicit Types (s : NgramTokenizer.t) (corpus : list text) (g : Ngram) (i : nat)
  (l : list (Ngram * nat)).

Lemma id_items_fst l : (NgramTokenizer.id_items l).*1 = l.*1.
Proof.
  unfold NgramTokenizer.id_items, PyList.enumerate.
  apply list_eq. intros i.
  rewrite !list_lookup_fmap, list_lookup_imap.
  by destruct (l !! i) as [[g c]|].
Qed.

Lemma id_items_length l : length (NgramTokenizer.id_items l) = length l.
Proof.
  unfold NgramTokenizer.id_items, PyList.enumerate.
  by rewrite length_fmap, length_imap.
Qed.

Lemma id_items_elem l g i :
  (g, i) ∈ NgramTokenizer.id_items l ↔ l.*1 !! i = Some g.
Proof.
  unfold NgramTokenizer.id_items, PyList.enumerate.
  rewrite list_elem_of_fmap. split.
  - intros ([j [g' c]] & Heq & Hin). simplify_eq/=.
    apply list_elem_of_lookup in Hin as [i' Hi'].
    rewrite list_lookup_imap in Hi'.
    destruct (l !! i') as [x|] eqn:Hx; simplify_eq/=.
    by rewrite list_lookup_fmap, Hx.
  - rewrite list_lookup_fmap. intros Hi.
    destruct (l !! i) as [[g' c]|] eqn:Hx; [|done]. injection Hi as ->.
    exists (i, (g, c)). split; [done|].
    apply list_elem_of_lookup. exists i. by rewrite list_lookup_imap, Hx.
Qed.

(** [train] returns, and the new state is a function of [n], [vocab_size]
    and the corpus. *)
Lemma train_eq corpus s :
  NgramTokenizer.train corpus s
  = Ok (tt,
        let ranked := NgramTokenizer.rank_ngrams (NgramTokenizer.vocab_size s)
                        (NgramTokenizer.count_ngrams (NgramTokenizer.n s) corpus) in
        let d := dict_of (NgramTokenizer.id_items ranked) in
        NgramTokenizer.Build
          (Tokenizer.Build (NgramTokenizer.vocab_size s) d
             (dict_of (NgramTokenizer.token_items d)))
          (NgramTokenizer.n s)).
Proof. reflexivity. Qed.

Lemma token_items_lookup (d : gmap Ngram nat) i g :
  (∀ g1 g2 j, d !! g1 = Some j → d !! g2 = Some j → g1 = g2) →
  dict_of (NgramTokenizer.token_items d) !! i = Some g ↔ d !! g = Some i.
Proof.
  intros Hinj. unfold NgramTokenizer.token_items.
  rewrite dict_of_lookup.
  - rewrite list_elem_of_fmap. split.
    + intros ([g' j] & Heq & Hin). simplify_eq/=.
      by apply elem_of_map_to_list in Hin.
    + intros Hd. exists (g, i). split; [done|].
      by apply elem_of_map_to_list.
  - rewrite <-list_fmap_compose.
    apply NoDup_fmap_2_strong; [|apply NoDup_map_to_list].
    intros [g1 j1] [g2 j2] H1%elem_of_map_to_list H2%elem_of_map_to_list Heq.
    simpl in Heq. subst j2. f_equal. by eapply Hinj.
Qed.

Lemma rank_ngrams_take (vs : Z) l :
  NgramTokenizer.rank_ngrams vs l
  = take (if decide (vs ≠ -1)
          then Z.to_nat (PyList.clamp (Z.of_nat (length l)) vs)
          else length l)
      (PyList.sorted_desc snd l).
Proof.
  unfold NgramTokenizer.rank_ngrams, PyList.slice_to.
  assert (Hlen : length (PyList.sorted_desc snd l) = length l).
  { by rewrite sorted_desc_perm. }
  rewrite Hlen. case_decide; [done|].
  by rewrite <-Hlen, firstn_all.
Qed.

(** The counted items [(g, c)] ordered by the first occurrence of [g]. *)
Lemma count_ngrams_spec (n : Z) corpus :
  ∃ ks, NgramTokenizer.count_ngrams n corpus
        = (λ k, (k, frequency k (corpus_windows n corpus))) <$> ks
        ∧ NoDup ks
        ∧ (∀ g, g ∈ ks ↔ g ∈ corpus_windows n corpus)
        ∧ StronglySorted (occurs_first (corpus_windows n corpus)) ks
        ∧ length ks = distinct (corpus_windows n corpus).
Proof.
  destruct (count_fold_spec (corpus_windows n corpus))
    as (ks & Hfold & Hnd & Hin & Hord).
  exists ks. rewrite count_ngrams_fold. split_and!; try done.
  unfold distinct. apply Permutation_length, NoDup_Permutation.
  - done.
  - apply NoDup_remove_dups.
  - intros g. by rewrite elem_of_remove_dups, Hin.
Qed.

(** The ranked list that [train] enumerates. *)
Lemma ranked_spec (n vs : Z) corpus :
  let ws := corpus_windows n corpus in
  let ranked := NgramTokenizer.rank_ngrams vs (NgramTokenizer.count_ngrams n corpus) in
  NoDup ranked.*1
  ∧ (∀ g c, (g, c) ∈ ranked → g ∈ ws ∧ c = frequency g ws)
  ∧ StronglySorted (ranks_before snd (λ x y, occurs_first ws x.1 y.1)) ranked
  ∧ length ranked
    = (if decide (vs ≠ -1)
       then Z.to_nat (PyList.clamp (Z.of_nat (distinct ws)) vs) else distinct ws)
  ∧ ranked
    = take (length ranked)
        (NgramTokenizer.rank_ngrams (-1) (NgramTokenizer.count_ngrams n corpus))
  ∧ (vs = -1 → ∀ g, g ∈ ws → g ∈ ranked.*1).
Proof.
  intros ws ranked. subst ranked.
  destruct (count_ngrams_spec n corpus) as (ks & Hc & Hnd & Hin & Hord & Hlen).
  fold ws in Hc, Hin, Hord, Hlen.
  set (counts := NgramTokenizer.count_ngrams n corpus) in *.
  assert (Hclen : length counts = distinct ws).
  { by rewrite Hc, length_fmap. }
  assert (Hperm : PyList.sorted_desc snd counts ≡ₚ counts)
    by apply sorted_desc_perm.
  assert (Hfst : counts.*1 = ks).
  { rewrite Hc, <-list_fmap_compose. apply list_fmap_id. }
  assert (Hsorted : StronglySorted
            (ranks_before snd (λ x y, occurs_first ws x.1 y.1))
            (PyList.sorted_desc snd counts)).
  { apply sorted_desc_stable. rewrite Hc.
    eapply StronglySorted_fmap; [|exact Hord]. by intros a b. }
  assert (Hfull : NgramTokenizer.rank_ngrams (-1) counts = PyList.sorted_desc snd counts).
  { unfold NgramTokenizer.rank_ngrams. by rewrite decide_False by (by intros []). }
  rewrite (rank_ngrams_take vs), Hclen, Hfull.
  set (k := if decide (vs ≠ -1) then _ else _).
  split_and!.
  - rewrite fmap_take. eapply sublist_NoDup; [|apply sublist_take].
    by rewrite Hperm, Hfst.
  - intros g c Hgc.
    assert (Hgc' : (g, c) ∈ counts).
    { rewrite <-Hperm. eapply elem_of_take in Hgc as (i & Hi & _).
      by eapply list_elem_of_lookup_2. }
    rewrite Hc in Hgc'. apply list_elem_of_fmap in Hgc' as (g' & [= -> ->] & Hg').
    split; [by apply Hin|done].
  - rewrite <-(take_drop k (PyList.sorted_desc snd counts)) in Hsorted.
    by apply StronglySorted_app_1_l in Hsorted.
  - rewrite length_take, Hperm, Hclen. subst k. case_decide; [|lia].
    unfold PyList.clamp. case_decide; lia.
  - rewrite length_take.
    destruct (decide (k ≤ length (PyList.sorted_desc snd counts))%nat).
    + by rewrite Nat.min_l by lia.
    + by rewrite Nat.min_r, !take_ge by lia.
  - intros -> g Hg. subst k. rewrite decide_False by (by intros []).
    rewrite <-Hclen, <-(Permutation_length Hperm), firstn_all.
    rewrite Hperm, Hfst. by apply Hin.
Qed.

(** The state after [train]: both dicts list the ranked n-grams by position. *)
Lemma train_spec corpus s :
  let ranked := NgramTokenizer.rank_ngrams (NgramTokenizer.vocab_size s)
                  (NgramTokenizer.count_ngrams (NgramTokenizer.n s) corpus) in
  ∃ s', NgramTokenizer.train corpus s = Ok (tt, s')
        ∧ NgramTokenizer.n s' = NgramTokenizer.n s
        ∧ NgramTokenizer.vocab_size s' = NgramTokenizer.vocab_size s
        ∧ (∀ g i, NgramTokenizer.token_to_id s' !! g = Some i ↔ ranked.*1 !! i = Some g)
        ∧ (∀ g i, NgramTokenizer.id_to_token s' !! i = Some g ↔ ranked.*1 !! i = Some g)
        ∧ size (NgramTokenizer.token_to_id s') = length ranked.
Proof.
  intros ranked. eexists. split; [apply train_eq|]. fold ranked. cbv zeta.
  destruct (ranked_spec (NgramTokenizer.n s) (NgramTokenizer.vocab_size s) corpus)
    as (Hnd & _). fold ranked in Hnd.
  assert (Htok : ∀ g i, dict_of (NgramTokenizer.id_items ranked) !! g = Some i
                        ↔ ranked.*1 !! i = Some g).
  { intros g i. rewrite dict_of_lookup by (by rewrite id_items_fst).
    apply id_items_elem. }
  split_and!; try done.
  - intros g i. unfold NgramTokenizer.id_to_token. cbn [NgramTokenizer.super Tokenizer.id_to_token].
    rewrite token_items_lookup; [apply Htok|].
    intros g1 g2 j H1%Htok H2%Htok. congruence.
  - unfold NgramTokenizer.token_to_id. cbn [NgramTokenizer.super Tokenizer.token_to_id].
    rewrite dict_of_size by (by rewrite id_items_fst).
    apply id_items_length.
Qed.
End train.

(** ** The vocabulary after [train] *)

(** C1: after [train], a retained n-gram that is more frequent in the corpus
    than another retained one has the smaller id, and of two retained n-grams
    of equal frequency the one that occurs first in the scan of the corpus has
    the smaller id. *)
Theorem train_ranks_by_frequency (U : UnicodeTables) (corpus : list text)
    (s : NgramTokenizer.t) :
  ∃ s', NgramTokenizer.train corpus s = Ok (tt, s')
    ∧ ∀ (A B : Ngram) (a b : nat),
        NgramTokenizer.token_to_id s' !! A = Some a →
        NgramTokenizer.token_to_id s' !! B = Some b →
        (frequency B (corpus_windows (NgramTokenizer.n s) corpus)
           < frequency A (corpus_windows (NgramTokenizer.n s) corpus) → a < b)%nat
        ∧ (frequency A (corpus_windows (NgramTokenizer.n s) corpus)
             = frequency B (corpus_windows (NgramTokenizer.n s) corpus) →
           first_occurrence A (corpus_windows (NgramTokenizer.n s) corpus)
             < first_occurrence B (corpus_windows (NgramTokenizer.n s) corpus) →
           a < b)%nat.
Proof.
  destruct (train_spec corpus s) as (s' & Htrain & _ & _ & Htok & _ & _).
  exists s'. split; [done|]. intros A B a b HA HB.
  destruct (ranked_spec (NgramTokenizer.n s) (NgramTokenizer.vocab_size s) corpus)
    as (_ & Hcount & Hsorted & _).
  set (ws := corpus_windows (NgramTokenizer.n s) corpus) in *.
  set (ranked := NgramTokenizer.rank_ngrams _ _) in *.
  apply Htok in HA, HB. rewrite list_lookup_fmap in HA, HB.
  destruct (ranked !! a) as [[A' cA]|] eqn:Ha; simplify_eq/=.
  destruct (ranked !! b) as [[B' cB]|] eqn:Hb; simplify_eq/=.
  destruct (Hcount A cA) as [_ ->]; [by eapply list_elem_of_lookup_2|].
  destruct (Hcount B cB) as [_ ->]; [by eapply list_elem_of_lookup_2|].
  assert (Hlt : (b < a)%nat →
    ranks_before snd (λ x y, occurs_first ws x.1 y.1)
      (B, frequency B ws) (A, frequency A ws)).
  { intros Hba.
    apply (take_drop_middle ranked) in Hb as Hsplit.
    rewrite <-Hsplit in Hsorted, Ha.
    apply StronglySorted_app_1_r, StronglySorted_cons in Hsorted as [Hall _].
    eapply Forall_forall in Hall; [exact Hall|].
    assert (Hlen : length (take b ranked) = b).
    { rewrite length_take. apply lookup_lt_Some in Hb. lia. }
    rewrite lookup_app_r in Ha by lia. rewrite Hlen in Ha.
    destruct (a - b)%nat as [|j] eqn:Hj; [lia|].
    by eapply list_elem_of_lookup_2. }
  split.
  - intros Hfreq. destruct (decide (a < b)%nat); [done|].
    destruct (decide (a = b)) as [->|]; [simplify_eq; lia|].
    destruct Hlt as [?|[? _]]; simpl in *; lia.
  - intros Hfreq Hocc. destruct (decide (a < b)%nat); [done|].
    destruct (decide (a = b)) as [->|]; [simplify_eq; lia|].
    destruct Hlt as [?|[_ Hocc']]; [lia|simpl in *; lia|].
    unfold occurs_first in Hocc'. simpl in *. lia.
Qed.

(** C2: after [train], [token_to_id] and [id_to_token] are inverse to each
    other, no id is given twice, and the ids are exactly the numbers below
    [len(tokenizer)]. *)
Theorem train_dense_ids (U : UnicodeTables) (corpus : list text)
    (s : NgramTokenizer.t) :
  ∃ s', NgramTokenizer.train corpus s = Ok (tt, s')
    ∧ NgramTokenizer.len s' = Ok (size (NgramTokenizer.token_to_id s'), s')
    ∧ (∀ (g : Ngram) (i : nat),
         NgramTokenizer.token_to_id s' !! g = Some i
         ↔ NgramTokenizer.id_to_token s' !! i = Some g)
    ∧ (∀ (g1 g2 : Ngram) (i : nat),
         NgramTokenizer.token_to_id s' !! g1 = Some i →
         NgramTokenizer.token_to_id s' !! g2 = Some i → g1 = g2)
    ∧ dom (NgramTokenizer.id_to_token s')
      =@{gset nat} set_seq 0 (size (NgramTokenizer.token_to_id s'))
    ∧ map_img (NgramTokenizer.token_to_id s')
      =@{gset nat} set_seq 0 (size (NgramTokenizer.token_to_id s')).
Proof.
  destruct (train_spec corpus s) as (s' & Htrain & _ & _ & Htok & Hid & Hsize).
  exists s'. cbv zeta in *.
  set (ranked := NgramTokenizer.rank_ngrams _ _) in *.
  assert (Hdense : ∀ i, (∃ g, ranked.*1 !! i = Some g)
                        ↔ (i < size (NgramTokenizer.token_to_id s'))%nat).
  { intros i. rewrite Hsize, <-(length_fmap fst ranked).
    apply lookup_lt_is_Some. }
  do 2 (split; [done|]).
  split; [|split; [|split]].
  - intros g i. by rewrite Htok, Hid.
  - intros g1 g2 i H1%Htok H2%Htok. congruence.
  - apply set_eq. intros i.
    rewrite elem_of_dom, elem_of_set_seq. split.
    + intros [g Hg%Hid]. split; [lia|]. apply Hdense. by exists g.
    + intros [_ Hi]. apply Hdense in Hi as [g Hg]. exists g. by apply Hid.
  - apply set_eq. intros i.
    rewrite elem_of_map_img, elem_of_set_seq. split.
    + intros [g Hg%Htok]. split; [lia|]. apply Hdense. by exists g.
    + intros [_ Hi]. apply Hdense in Hi as [g Hg]. exists g. by apply Htok.
Qed.

(** C4, as the code has it: with a [vocab_size] of zero or more, after
    [train] the vocabulary has at most [vocab_size] entries; with the sentinel
    -1 it holds every distinct n-gram of the corpus, and nothing else. *)
Theorem train_bounded (U : UnicodeTables) (corpus : list text)
    (s : NgramTokenizer.t) :
  ∃ s', NgramTokenizer.train corpus s = Ok (tt, s')
    ∧ NgramTokenizer.len s' = Ok (size (NgramTokenizer.token_to_id s'), s')
    ∧ (0 ≤ NgramTokenizer.vocab_size s →
       Z.of_nat (size (NgramTokenizer.token_to_id s')) ≤ NgramTokenizer.vocab_size s)
    ∧ (NgramTokenizer.vocab_size s = -1 →
       (∀ g : Ngram, g ∈ corpus_windows (NgramTokenizer.n s) corpus ↔
                     is_Some (NgramTokenizer.token_to_id s' !! g))
       ∧ size (NgramTokenizer.token_to_id s')
         = distinct (corpus_windows (NgramTokenizer.n s) corpus)).
Proof.
  destruct (train_spec corpus s) as (s' & Htrain & _ & _ & Htok & _ & Hsize).
  exists s'. do 2 (split; [done|]).
  destruct (ranked_spec (NgramTokenizer.n s) (NgramTokenizer.vocab_size s) corpus)
    as (_ & Hcount & _ & Hlen & _ & Hall).
  cbv zeta in *.
  set (ws := corpus_windows (NgramTokenizer.n s) corpus) in *.
  set (ranked := NgramTokenizer.rank_ngrams _ _) in *.
  split.
  - intros Hvs. rewrite Hsize, Hlen. case_decide; [|lia].
    unfold PyList.clamp. case_decide; lia.
  - intros Hvs. split.
    + intros g. split.
      * intros Hg. apply (Hall Hvs) in Hg.
        apply list_elem_of_lookup in Hg as [i Hi]. exists i. by apply Htok.
      * intros [i Hi%Htok]. rewrite list_lookup_fmap in Hi.
        destruct (ranked !! i) as [[g' c]|] eqn:Hr; simplify_eq/=.
        eapply Hcount, list_elem_of_lookup_2, Hr.
    + rewrite Hsize, Hlen. case_decide; [lia|done].
Qed.

(** C8: a second [train] replaces the vocabulary: after [train(c1)] and
    [train(c2)] the instance is in the state that [train(c2)] alone gives on a
    new instance with the same [n] and [vocab_size]. *)
Theorem retrain_replaces (U : UnicodeTables) (c1 c2 : list text)
    (s : NgramTokenizer.t) :
  ∃ s1 s2 fresh s2',
    NgramTokenizer.train c1 s = Ok (tt, s1)
    ∧ NgramTokenizer.train c2 s1 = Ok (tt, s2)
    ∧ NgramTokenizer.init (NgramTokenizer.n s) (NgramTokenizer.vocab_size s) = Ok fresh
    ∧ NgramTokenizer.train c2 fresh = Ok (tt, s2')
    ∧ NgramTokenizer.token_to_id s2 = NgramTokenizer.token_to_id s2'
    ∧ NgramTokenizer.id_to_token s2 = NgramTokenizer.id_to_token s2'
    ∧ s2 = s2'.
Proof.
  do 4 eexists. split; [apply train_eq|]. split; [apply train_eq|].
  split; [reflexivity|]. split; [apply train_eq|]. done.
Qed.

(** C10: [train] raises nothing for a [vocab_size] of zero or below -1. With
    0 the vocabulary is empty. With [-k], [k >= 2], and [D] distinct n-grams
    in the corpus, it has [max(0, D - k)] entries: the entries of the
    unbounded vocabulary, with their ids, except the [k] last-ranked ones. *)
Theorem train_nonpositive_vocab_size (U : UnicodeTables) (corpus : list text)
    (s : NgramTokenizer.t) :
  ∃ s' su,
    NgramTokenizer.train corpus s = Ok (tt, s')
    ∧ NgramTokenizer.train corpus
        (NgramTokenizer.Build (Tokenizer.Build (-1) ∅ ∅) (NgramTokenizer.n s))
      = Ok (tt, su)
    ∧ size (NgramTokenizer.token_to_id su)
      = distinct (corpus_windows (NgramTokenizer.n s) corpus)
    ∧ (NgramTokenizer.vocab_size s = 0 →
       NgramTokenizer.token_to_id s' = ∅ ∧ NgramTokenizer.id_to_token s' = ∅)
    ∧ (∀ k : Z, 2 ≤ k → NgramTokenizer.vocab_size s = - k →
       Z.of_nat (size (NgramTokenizer.token_to_id s'))
       = Z.max 0 (Z.of_nat (distinct (corpus_windows (NgramTokenizer.n s) corpus)) - k)
       ∧ ∀ (g : Ngram) (i : nat),
           NgramTokenizer.token_to_id s' !! g = Some i
           ↔ Z.of_nat i < Z.of_nat (distinct (corpus_windows (NgramTokenizer.n s) corpus)) - k
             ∧ NgramTokenizer.token_to_id su !! g = Some i).
Proof.
  destruct (train_spec corpus s) as (s' & Htrain & _ & _ & Htok & Hid & Hsize).
  destruct (train_spec corpus
              (NgramTokenizer.Build (Tokenizer.Build (-1) ∅ ∅) (NgramTokenizer.n s)))
    as (su & Htrainu & _ & _ & Htoku & _ & Hsizeu).
  exists s', su. do 2 (split; [done|]).
  destruct (ranked_spec (NgramTokenizer.n s) (NgramTokenizer.vocab_size s) corpus)
    as (_ & _ & _ & Hlen & Htake & _).
  destruct (ranked_spec (NgramTokenizer.n s) (-1) corpus)
    as (_ & _ & _ & Hlenu & _ & _).
  cbv zeta in *. cbn [NgramTokenizer.n NgramTokenizer.vocab_size NgramTokenizer.super
    Tokenizer.vocab_size] in *.
  set (ws := corpus_windows (NgramTokenizer.n s) corpus) in *.
  set (ranked := NgramTokenizer.rank_ngrams (NgramTokenizer.vocab_size s) _) in *.
  set (full := NgramTokenizer.rank_ngrams (-1) _) in *.
  case_decide; [lia|].
  split; [by rewrite Hsizeu|]. split.
  - intros Hvs. rewrite Hvs in Hlen. unfold PyList.clamp in Hlen.
    repeat case_decide; try lia.
    assert (Hnil : ranked = []) by (apply length_zero_iff_nil; lia).
    split.
    + apply map_size_empty_iff. by rewrite Hsize, Hnil.
    + apply map_empty. intros i. apply eq_None_not_Some. intros [g Hg%Hid].
      by rewrite Hnil in Hg.
  - intros k Hk Hvs. rewrite Hvs in Hlen. unfold PyList.clamp in Hlen.
    repeat case_decide; try lia.
    split; [rewrite Hsize, Hlen; lia|].
    intros g i. rewrite Htok, Htoku, Htake, fmap_take, lookup_take.
    case_decide; [|split; [done|lia]].
    split; [|by intros [_ ?]]. intros Hg. split; [lia|done].
Qed.

(** ** [tokenize] and [__init__] *)

Section tokenize.
Context `{U : UnicodeTables}.
Implicit Types (s : NgramTokenizer.t) (d : gmap Ngram nat) (l : list Ngram).

(** Looking up keys of the dict raises no [KeyError] and leaves the state. *)
Lemma mapM_getitem d l s :
  Forall (λ g, is_Some (d !! g)) l →
  ∃ ids, mapM (getitem d) l s = Ok (ids, s)
         ∧ Forall2 (λ g i, d !! g = Some i) l ids.
Proof.
  induction 1 as [|g l [i Hi] Hl (ids & Hids & Hall)].
  { exists []. by split; [|constructor]. }
  exists (i :: ids). split; [|by constructor].
  cbn [mapM]. unfold mbind, M_bind at 1. unfold getitem at 1. rewrite Hi.
  unfold mret at 1, M_ret at 1. unfold M_bind at 1. by rewrite Hids.
Qed.

Lemma tokenize_ngrams text s :
  NgramTokenizer.tokenize text false s
  = Ok (Ngrams (filter (λ g, is_Some (NgramTokenizer.token_to_id s !! g))
                  (ngrams_of (NgramTokenizer.n s) (convert_text_to_words text))), s).
Proof. reflexivity. Qed.

Lemma tokenize_ids text s :
  ∃ ids,
    NgramTokenizer.tokenize text true s = Ok (Ids ids, s)
    ∧ Forall2 (λ g i, NgramTokenizer.token_to_id s !! g = Some i)
        (filter (λ g, is_Some (NgramTokenizer.token_to_id s !! g))
           (ngrams_of (NgramTokenizer.n s) (convert_text_to_words text)))
        ids.
Proof.
  set (kept := filter _ _).
  destruct (mapM_getitem (NgramTokenizer.token_to_id s) kept s) as (ids & Hids & Hall).
  { apply Forall_forall. intros g Hg. by apply list_elem_of_filter in Hg as [? _]. }
  exists ids. split; [|done].
  change (NgramTokenizer.tokenize text true s)
    with (match mapM (getitem (NgramTokenizer.token_to_id s)) kept s with
          | Ok (token_ids, s') => Ok (Ids token_ids, s')
          | Raise e => Raise e
          end).
  by rewrite Hids.
Qed.
End tokenize.

(** C3: in both modes [tokenize] returns the windows of the text that are
    keys of [token_to_id], in their order, as tuples or as their ids; nothing
    outside the vocabulary is returned, and on a new instance, before any
    [train], the result is empty. *)
Theorem tokenize_filters_vocabulary (U : UnicodeTables) (text : text)
    (s : NgramTokenizer.t) :
  NgramTokenizer.tokenize text false s
  = Ok (Ngrams (filter (λ g, is_Some (NgramTokenizer.token_to_id s !! g))
                  (ngrams_of (NgramTokenizer.n s) (convert_text_to_words text))), s)
  ∧ (∃ ids,
       NgramTokenizer.tokenize text true s = Ok (Ids ids, s)
       ∧ Forall2 (λ g i, NgramTokenizer.token_to_id s !! g = Some i)
           (filter (λ g, is_Some (NgramTokenizer.token_to_id s !! g))
              (ngrams_of (NgramTokenizer.n s) (convert_text_to_words text)))
           ids
       ∧ Forall (λ i, ∃ g, NgramTokenizer.token_to_id s !! g = Some i) ids)
  ∧ filter (λ g, is_Some (NgramTokenizer.token_to_id s !! g))
      (ngrams_of (NgramTokenizer.n s) (convert_text_to_words text))
    `sublist_of` ngrams_of (NgramTokenizer.n s) (convert_text_to_words text)
  ∧ (∀ g : Ngram,
       g ∈ filter (λ g, is_Some (NgramTokenizer.token_to_id s !! g))
             (ngrams_of (NgramTokenizer.n s) (convert_text_to_words text))
       ↔ g ∈ ngrams_of (NgramTokenizer.n s) (convert_text_to_words text)
         ∧ is_Some (NgramTokenizer.token_to_id s !! g))
  ∧ (∀ n vocab_size : Z, ∃ s0,
       NgramTokenizer.init n vocab_size = Ok s0
       ∧ NgramTokenizer.tokenize text false s0 = Ok (Ngrams [], s0)
       ∧ NgramTokenizer.tokenize text true s0 = Ok (Ids [], s0)).
Proof.
  split; [apply tokenize_ngrams|]. split; [|split; [|split]].
  - destruct (tokenize_ids text s) as (ids & Hids & Hall).
    exists ids. do 2 (split; [done|]).
    apply Forall_forall. intros i Hi.
    apply list_elem_of_lookup in Hi as [j Hj].
    destruct (Forall2_lookup_r _ _ _ _ _ Hall Hj) as (g & _ & Hg). by exists g.
  - apply sublist_filter.
  - intros g. rewrite list_elem_of_filter. tauto.
  - intros n vocab_size. eexists. split; [reflexivity|].
    set (s0 := NgramTokenizer.Build _ _).
    assert (Hnil : ∀ l : list Ngram,
              filter (λ g, is_Some (NgramTokenizer.token_to_id s0 !! g)) l = []).
    { intros l. apply elem_of_nil_inv. intros g [[i Hi] _]%list_elem_of_filter.
      change (NgramTokenizer.token_to_id s0) with (∅ : gmap Ngram nat) in Hi.
      by rewrite lookup_empty in Hi. }
    split.
    + by rewrite tokenize_ngrams, Hnil.
    + destruct (tokenize_ids text s0) as (ids & Hids & Hall).
      rewrite Hnil in Hall. apply Forall2_nil_inv_l in Hall as ->. done.
Qed.

(** C9: [tokenize] returns in both modes and leaves the instance as it
    was: [n], [vocab_size], [token_to_id] and [id_to_token] are unchanged. *)
Theorem tokenize_preserves_state (U : UnicodeTables) (text : text)
    (return_token_ids : bool) (s : NgramTokenizer.t) :
  ∃ out s',
    NgramTokenizer.tokenize text return_token_ids s = Ok (out, s')
    ∧ s' = s
    ∧ NgramTokenizer.n s' = NgramTokenizer.n s
    ∧ NgramTokenizer.vocab_size s' = NgramTokenizer.vocab_size s
    ∧ NgramTokenizer.token_to_id s' = NgramTokenizer.token_to_id s
    ∧ NgramTokenizer.id_to_token s' = NgramTokenizer.id_to_token s.
Proof.
  destruct return_token_ids.
  - destruct (tokenize_ids text s) as (ids & Hids & _).
    by exists (Ids ids), s.
  - eexists _, s. split; [apply tokenize_ngrams|done].
Qed.

(** C7, as the code has it: [__init__] checks nothing. For every [n] and
    [vocab_size], also below 1, it raises no error and produces the instance
    with these values and two empty dicts. *)
Theorem init_accepts_any (n vocab_size : Z) :
  (¬ ∃ e, NgramTokenizer.init n vocab_size = Raise e)
  ∧ ∃ self,
      NgramTokenizer.init n vocab_size = Ok self
      ∧ NgramTokenizer.n self = n
      ∧ NgramTokenizer.vocab_size self = vocab_size
      ∧ NgramTokenizer.token_to_id self = ∅
      ∧ NgramTokenizer.id_to_token self = ∅
      ∧ NgramTokenizer.len self = Ok (0%nat, self).
Proof.
  split.
  - intros [e He]. unfold NgramTokenizer.init, Tokenizer.init in He. discriminate.
  - exists (NgramTokenizer.Build (Tokenizer.Build vocab_size ∅ ∅) n).
    split_and!; try reflexivity.
Qed.

(** With [n = 0] and [vocab_size = 0] the constructor raises nothing and
    returns an instance. *)
Lemma init_invalid_counterexample :
  0 < 1
  ∧ (¬ ∃ e, NgramTokenizer.init 0 0 = Raise e)
  ∧ NgramTokenizer.init 0 0
    = Ok (NgramTokenizer.Build (Tokenizer.Build 0 ∅ ∅) 0).
Proof. split; [lia|]. split; [by intros [e ?]|done]. Qed.

(** With [vocab_size = -2], which is not the sentinel, a corpus with three
    distinct unigrams leaves one entry, more than [vocab_size]. *)
Lemma train_bounded_counterexample :
  ∃ s',
    @NgramTokenizer.train ascii_tables [str "a b c"]
      (NgramTokenizer.Build (Tokenizer.Build (-2) ∅ ∅) 1) = Ok (tt, s')
    ∧ NgramTokenizer.vocab_size (NgramTokenizer.Build (Tokenizer.Build (-2) ∅ ∅) 1) ≠ -1
    ∧ size (NgramTokenizer.token_to_id s') = 1%nat
    ∧ ¬ (Z.of_nat (size (NgramTokenizer.token_to_id s')) ≤ -2).
Proof.
  eexists. split; [apply train_eq|]. split; [done|].
  assert (Hsize : size (NgramTokenizer.token_to_id
            (let ranked := NgramTokenizer.rank_ngrams (-2)
                             (@NgramTokenizer.count_ngrams ascii_tables 1 [str "a b c"]) in
             let d := dict_of (NgramTokenizer.id_items ranked) in
             NgramTokenizer.Build
               (Tokenizer.Build (-2) d (dict_of (NgramTokenizer.token_items d))) 1))
          = 1%nat) by (vm_compute; reflexivity).
  split; [exact Hsize|]. cbv zeta in Hsize |- *.
  cbn [NgramTokenizer.vocab_size NgramTokenizer.n NgramTokenizer.super
       Tokenizer.vocab_size]. rewrite Hsize. lia.
Qed.

(** ** The theorems at concrete corpora *)

(** Unigrams of ["b a a c"], unbounded: [a] is most frequent; [b] and [c]
    tie and [b] occurs first. *)
Lemma train_ranks_by_frequency_witness :
  ∃ s',
    @NgramTokenizer.train ascii_tables [str "b a a c"]
      (NgramTokenizer.Build (Tokenizer.Build (-1) ∅ ∅) 1) = Ok (tt, s')
    ∧ NgramTokenizer.token_to_id s' !! [str "a"] = Some 0%nat
    ∧ NgramTokenizer.token_to_id s' !! [str "b"] = Some 1%nat
    ∧ NgramTokenizer.token_to_id s' !! [str "c"] = Some 2%nat
    ∧ (frequency [str "b"] (@corpus_windows ascii_tables 1 [str "b a a c"])
       < frequency [str "a"] (@corpus_windows ascii_tables 1 [str "b a a c"]))%nat
    ∧ frequency [str "b"] (@corpus_windows ascii_tables 1 [str "b a a c"])
      = frequency [str "c"] (@corpus_windows ascii_tables 1 [str "b a a c"])
    ∧ (first_occurrence [str "b"] (@corpus_windows ascii_tables 1 [str "b a a c"])
       < first_occurrence [str "c"] (@corpus_windows ascii_tables 1 [str "b a a c"]))%nat
    ∧ (0 < 1)%nat ∧ (1 < 2)%nat.
Proof.
  destruct (train_ranks_by_frequency ascii_tables [str "b a a c"]
              (NgramTokenizer.Build (Tokenizer.Build (-1) ∅ ∅) 1))
    as (s' & Htrain & Hrank).
  exists s'. split; [exact Htrain|].
  rewrite train_eq in Htrain. injection Htrain as <-.
  split; [vm_compute; reflexivity|].
  split; [vm_compute; reflexivity|].
  split; [vm_compute; reflexivity|].
  split; [vm_compute; lia|]. split; [vm_compute; reflexivity|].
  split; [vm_compute; lia|]. split.
  - destruct (Hrank [str "a"] [str "b"] 0%nat 1%nat) as [Hfreq _];
      [vm_compute; reflexivity|vm_compute; reflexivity|].
    apply Hfreq. vm_compute. lia.
  - destruct (Hrank [str "b"] [str "c"] 1%nat 2%nat) as [_ Htie];
      [vm_compute; reflexivity|vm_compute; reflexivity|].
    apply Htie; [vm_compute; reflexivity|vm_compute; lia].
Defined.

Lemma train_dense_ids_witness :
  ∃ s',
    @NgramTokenizer.train ascii_tables [str "b a a c"]
      (NgramTokenizer.Build (Tokenizer.Build (-1) ∅ ∅) 1) = Ok (tt, s')
    ∧ NgramTokenizer.token_to_id s' !! [str "a"] = Some 0%nat
    ∧ NgramTokenizer.id_to_token s' !! 0%nat = Some [str "a"]
    ∧ size (NgramTokenizer.token_to_id s') = 3%nat
    ∧ dom (NgramTokenizer.id_to_token s') =@{gset nat} set_seq 0 3.
Proof.
  destruct (train_dense_ids ascii_tables [str "b a a c"]
              (NgramTokenizer.Build (Tokenizer.Build (-1) ∅ ∅) 1))
    as (s' & Htrain & _ & Hinv & _ & Hdom & _).
  exists s'. split; [exact Htrain|].
  assert (Hsize : size (NgramTokenizer.token_to_id s') = 3%nat).
  { rewrite train_eq in Htrain. injection Htrain as <-. vm_compute. reflexivity. }
  assert (Hlook : NgramTokenizer.token_to_id s' !! [str "a"] = Some 0%nat).
  { rewrite train_eq in Htrain. injection Htrain as <-. vm_compute. reflexivity. }
  split; [exact Hlook|]. split; [by apply Hinv|]. split; [exact Hsize|].
  by rewrite Hdom, Hsize.
Defined.

(** [vocab_size = 2] on a corpus with three distinct unigrams. *)
Lemma train_bounded_witness :
  ∃ s',
    @NgramTokenizer.train ascii_tables [str "b a a c"]
      (NgramTokenizer.Build (Tokenizer.Build 2 ∅ ∅) 1) = Ok (tt, s')
    ∧ 0 ≤ 2
    ∧ NgramTokenizer.token_to_id s' !! [str "c"] = None
    ∧ Z.of_nat (size (NgramTokenizer.token_to_id s')) ≤ 2.
Proof.
  destruct (train_bounded ascii_tables [str "b a a c"]
              (NgramTokenizer.Build (Tokenizer.Build 2 ∅ ∅) 1))
    as (s' & Htrain & _ & Hle & _).
  exists s'. split; [exact Htrain|]. split; [lia|]. split.
  - rewrite train_eq in Htrain. injection Htrain as <-. vm_compute. reflexivity.
  - apply Hle. unfold NgramTokenizer.vocab_size. simpl. lia.
Defined.

(** [vocab_size = -2] on a corpus with three distinct unigrams: one entry is
    left, the first of the unbounded ranking. *)
Lemma train_nonpositive_vocab_size_witness :
  ∃ s',
    @NgramTokenizer.train ascii_tables [str "b a a c"]
      (NgramTokenizer.Build (Tokenizer.Build (-2) ∅ ∅) 1) = Ok (tt, s')
    ∧ 2 ≤ 2
    ∧ distinct (@corpus_windows ascii_tables 1 [str "b a a c"]) = 3%nat
    ∧ NgramTokenizer.token_to_id s' !! [str "a"] = Some 0%nat
    ∧ NgramTokenizer.token_to_id s' !! [str "b"] = None
    ∧ Z.of_nat (size (NgramTokenizer.token_to_id s')) = Z.max 0 (3 - 2).
Proof.
  destruct (train_nonpositive_vocab_size ascii_tables [str "b a a c"]
              (NgramTokenizer.Build (Tokenizer.Build (-2) ∅ ∅) 1))
    as (s' & su & Htrain & _ & _ & _ & Hneg).
  exists s'. split; [exact Htrain|]. split; [lia|].
  assert (HD : distinct (@corpus_windows ascii_tables 1 [str "b a a c"]) = 3%nat)
    by (vm_compute; reflexivity).
  split; [exact HD|].
  destruct (Hneg 2 ltac:(lia) eq_refl) as [Hsize _].
  cbn [NgramTokenizer.n] in Hsize. rewrite HD in Hsize.
  split; [|split; [|exact Hsize]].
  - rewrite train_eq in Htrain. injection Htrain as <-. vm_compute. reflexivity.
  - rewrite train_eq in Htrain. injection Htrain as <-. vm_compute. reflexivity.
Defined.

(** * Further properties of the module *)

(** ** The segmenter *)

Section class_runs.
Context {C : Type}.
Implicit Types (p : C → bool) (t : list C).

Lemma take_class_Forall p t : Forall (λ c, p c = true) (Re.take_class p t).
Proof.
  induction t as [|c t IH]; simpl; [constructor|].
  destruct (p c) eqn:Hc; by constructor.
Qed.

Lemma drop_class_head p t c t' : Re.drop_class p t = c :: t' → p c = false.
Proof.
  induction t as [|c0 t IH]; simpl; [done|].
  destruct (p c0) eqn:Hc; [done|]. by intros [= <- _].
Qed.

Lemma drop_class_length p t : (length (Re.drop_class p t) ≤ length t)%nat.
Proof.
  induction t as [|c t IH]; simpl; [done|]. destruct (p c); simpl; lia.
Qed.
End class_runs.

Section segmenter_more.
Context `{U : UnicodeTables}.
Implicit Types (c : N) (t run : text) (u : Unit).

(** Induction along the scan of [convert_text_to_words]. *)
Lemma segment_ind (P : text → list Unit → Prop) :
  P [] [] →
  (∀ run t, run ≠ [] → Forall (λ c, is_word c = true) run →
     (∀ c t', t = c :: t' → is_word c = false) →
     P t (convert_text_to_words t) →
     P (run ++ t) (run :: convert_text_to_words t)) →
  (∀ c t, is_word c = false → is_space c = false →
     P t (convert_text_to_words t) →
     P (c :: t) ([c] :: convert_text_to_words t)) →
  (∀ c t, is_word c = false → is_space c = true →
     P t (convert_text_to_words t) →
     P (c :: t) (convert_text_to_words t)) →
  ∀ t, P t (convert_text_to_words t).
Proof.
  intros Hnil Hrun Hpunct Hspace t.
  remember (length t) as m eqn:Hm. revert t Hm.
  induction m as [m IH] using lt_wf_ind. intros t ->.
  destruct t as [|c t]; [by rewrite segment_nil|].
  destruct (is_word c) eqn:Hw.
  - assert (Hsplit : c :: t
        = (c :: Re.take_class is_word t) ++ Re.drop_class is_word t).
    { simpl. by rewrite take_drop_class. }
    assert (Hstop : ∀ c' t', Re.drop_class is_word t = c' :: t' → is_word c' = false)
      by (intros c' t'; apply drop_class_head).
    assert (Hall : Forall (λ c, is_word c = true) (c :: Re.take_class is_word t))
      by (constructor; [done|apply take_class_Forall]).
    rewrite Hsplit at 2. rewrite segment_run by done.
    rewrite Hsplit. apply Hrun; [done|done|done|].
    eapply IH; [|done]. pose proof (drop_class_length is_word t). simpl. lia.
  - destruct (is_space c) eqn:Hs.
    + rewrite segment_space by done. apply Hspace; [done|done|].
      eapply IH; [|done]. simpl. lia.
    + rewrite segment_punct by done. apply Hpunct; [done|done|].
      eapply IH; [|done]. simpl. lia.
Qed.

(** The shape of a Unit: a run of word characters or one other character
    that is not whitespace. *)
Lemma segment_shape t u :
  u ∈ convert_text_to_words t →
  (u ≠ [] ∧ Forall (λ c, is_word c = true) u)
  ∨ (∃ c, u = [c] ∧ is_word c = false ∧ is_space c = false).
Proof.
  revert u. apply (segment_ind (λ t us, ∀ u, u ∈ us → _)).
  - by intros u ?%elem_of_nil.
  - intros run t' Hne Hrun _ IH u [->|Hu]%elem_of_cons; [by left|by apply IH].
  - intros c t' Hw Hs IH u [->|Hu]%elem_of_cons; [right; by exists c|by apply IH].
  - intros c t' _ _ IH. exact IH.
Qed.
End segmenter_more.

(** X1: every Unit is a non-empty run of word characters, or one single
    character that is neither a word character nor whitespace. *)
Theorem segment_unit_shapes (U : UnicodeTables) (t : text) :
  Forall (λ u : Unit,
            (u ≠ [] ∧ Forall (λ c, is_word c = true) u)
            ∨ (∃ c, u = [c] ∧ is_word c = false ∧ is_space c = false))
         (convert_text_to_words t).
Proof. apply Forall_forall. intros u Hu. by eapply segment_shape. Qed.

(** X2: the Units, joined, are the text without the characters that are
    whitespace and no word characters: segmentation drops nothing else and
    keeps the order. *)
Theorem segment_concat (U : UnicodeTables) (t : text) :
  concat (convert_text_to_words t)
  = filter (λ c, is_word c = true ∨ is_space c = false) t.
Proof.
  apply (segment_ind (λ t us, concat us = filter _ t)).
  - done.
  - intros run t' _ Hrun _ IH. rewrite filter_app. simpl. rewrite IH. f_equal.
    clear IH. induction Hrun as [|c run Hc _ IHrun]; [done|].
    rewrite filter_cons_True by (by left). by rewrite <-IHrun.
  - intros c t' Hw Hs IH. rewrite filter_cons_True by (by right).
    simpl. by rewrite IH.
  - intros c t' Hw Hs IH. rewrite filter_cons_False; [done|].
    intros [?|?]; congruence.
Qed.

(** X3: a text has no Units exactly when all its characters are whitespace
    and no word characters. *)
Theorem segment_empty_iff (U : UnicodeTables) (t : text) :
  convert_text_to_words t = []
  ↔ Forall (λ c, is_word c = false ∧ is_space c = true) t.
Proof.
  apply (segment_ind (λ t us, us = [] ↔ Forall _ t)).
  - split; [constructor|done].
  - intros run t' Hne Hrun _ _. split; [done|].
    destruct run as [|c run]; [done|].
    intros [[Hc _] _]%Forall_cons. apply Forall_cons in Hrun as [Hc' _].
    congruence.
  - intros c t' Hw Hs _. split; [done|].
    intros [[_ Hc] _]%Forall_cons. congruence.
  - intros c t' Hw Hs IH. rewrite IH, Forall_cons. tauto.
Qed.

(** X4: a character that is no word character ends the Unit before it: the
    text can be cut in front of it, and when it is whitespace the Units are
    those of the two parts. *)
Theorem segment_app_boundary (U : UnicodeTables) (t1 t2 : text) (c : N) :
  is_word c = false →
  convert_text_to_words (t1 ++ c :: t2)
  = convert_text_to_words t1 ++ convert_text_to_words (c :: t2)
  ∧ (is_space c = true →
     convert_text_to_words (t1 ++ c :: t2)
     = convert_text_to_words t1 ++ convert_text_to_words t2).
Proof.
  intros Hc.
  assert (Hcut : convert_text_to_words (t1 ++ c :: t2)
                 = convert_text_to_words t1 ++ convert_text_to_words (c :: t2)).
  { apply (segment_ind (λ t us, convert_text_to_words (t ++ c :: t2) = us ++ _)).
    - done.
    - intros run t Hne Hrun Hstop IH. rewrite <-app_assoc.
      rewrite segment_run; [by rewrite IH|done|done|].
      intros c' t' Heq. destruct t as [|c0 t]; simpl in Heq; simplify_eq; [done|].
      by eapply Hstop.
    - intros c0 t Hw Hs IH. simpl. rewrite segment_punct by done. by rewrite IH.
    - intros c0 t Hw Hs IH. simpl. by rewrite segment_space. }
  split; [done|]. intros Hs. by rewrite Hcut, (segment_space c t2).
Qed.

Lemma segment_app_boundary_witness :
  @is_word ascii_tables 32%N = false
  ∧ @is_space ascii_tables 32%N = true
  ∧ @convert_text_to_words ascii_tables (str "so bad" ++ 32%N :: str "it's good")
    = @convert_text_to_words ascii_tables (str "so bad")
      ++ @convert_text_to_words ascii_tables (str "it's good").
Proof.
  split; [reflexivity|]. split; [reflexivity|].
  apply (segment_app_boundary ascii_tables (str "so bad") (str "it's good") 32%N);
    reflexivity.
Defined.

(** X5: a Unit is a fixed point of the segmenter: segmenting it again gives
    the Unit alone. *)
Theorem segment_unit_fixed (U : UnicodeTables) (t : text) :
  Forall (λ u : Unit, convert_text_to_words u = [u]) (convert_text_to_words t).
Proof.
  apply Forall_forall. intros u Hu.
  destruct (segment_shape t u Hu) as [[Hne Hword]|(c & -> & Hw & Hs)].
  - rewrite <-(app_nil_r u) at 1. by rewrite segment_run.
  - by rewrite segment_punct.
Qed.

(** X6: there are at most as many Units as characters. *)
Theorem segment_length (U : UnicodeTables) (t : text) :
  (length (convert_text_to_words t) ≤ length t)%nat.
Proof.
  apply (segment_ind (λ t us, (length us ≤ length t)%nat)).
  - done.
  - intros run t' Hne _ _ IH. rewrite length_app. destruct run; [done|]. simpl. lia.
  - intros c t' _ _ IH. simpl. lia.
  - intros c t' _ _ IH. simpl. lia.
Qed.

(** ** More on [train] *)

Lemma StronglySorted_lookup {A} (R : relation A) (l : list A) (i j : nat) (x y : A) :
  StronglySorted R l → l !! i = Some x → l !! j = Some y → (i < j)%nat → R x y.
Proof.
  intros Hl Hi Hj Hij.
  rewrite <-(take_drop_middle l i x Hi) in Hl, Hj.
  apply StronglySorted_app_1_r, StronglySorted_cons in Hl as [Hall _].
  eapply Forall_forall in Hall; [exact Hall|].
  assert (Hlen : length (take i l) = i).
  { rewrite length_take. apply lookup_lt_Some in Hi. lia. }
  rewrite lookup_app_r in Hj by lia. rewrite Hlen in Hj.
  destruct (j - i)%nat as [|k] eqn:Hk; [lia|].
  by eapply list_elem_of_lookup_2.
Qed.

Section train_more.
Context `{U : UnicodeTables}.
Implicit Types (s : NgramTokenizer.t) (corpus : list text) (g h : Ngram) (i j : nat).

Lemma corpus_windows_elem (n : Z) corpus g :
  g ∈ corpus_windows n corpus
  ↔ ∃ text, text ∈ corpus ∧ g ∈ ngrams_of n (convert_text_to_words text).
Proof.
  unfold corpus_windows. rewrite list_elem_of_bind.
  split; intros (text & ? & ?); by exists text.
Qed.

(** The ranked list against the unbounded ranking. *)
Lemma ranked_full (n vs : Z) corpus :
  let ws := corpus_windows n corpus in
  let ranked := NgramTokenizer.rank_ngrams vs (NgramTokenizer.count_ngrams n corpus) in
  let full := NgramTokenizer.rank_ngrams (-1) (NgramTokenizer.count_ngrams n corpus) in
  (∀ i g, ranked.*1 !! i = Some g
          ↔ (i < length ranked)%nat ∧ full !! i = Some (g, frequency g ws))
  ∧ (∀ h, h ∈ ws → ∃ j, full !! j = Some (h, frequency h ws))
  ∧ StronglySorted (ranks_before snd (λ x y, occurs_first ws x.1 y.1)) full.
Proof.
  intros ws ranked full.
  destruct (ranked_spec n vs corpus) as (_ & _ & _ & _ & Htake & _).
  destruct (ranked_spec n (-1) corpus) as (_ & Hcount & Hsorted & _ & _ & Hall).
  fold ws ranked full in Htake, Hcount, Hsorted, Hall.
  assert (Hfull : ∀ i g, full.*1 !! i = Some g ↔ full !! i = Some (g, frequency g ws)).
  { intros i g. rewrite list_lookup_fmap. split.
    - destruct (full !! i) as [[g' c]|] eqn:Hi; intros; simplify_eq/=.
      by destruct (Hcount g c (list_elem_of_lookup_2 _ _ _ Hi)) as [_ ->].
    - by intros ->. }
  split_and!; [|  |done].
  - intros i g. rewrite <-Hfull. rewrite Htake at 1.
    rewrite fmap_take, lookup_take. case_decide; [|split; [done|lia]].
    split; [done|by intros [_ ?]].
  - intros h Hh. apply (Hall eq_refl), list_elem_of_lookup in Hh as [j Hj].
    exists j. by apply Hfull.
Qed.

(** An observed n-gram that is dropped, or retained with an id from [i] on,
    is not more frequent than the n-gram with id [i]. *)
Lemma train_rank_le corpus s :
  ∃ s', NgramTokenizer.train corpus s = Ok (tt, s')
    ∧ ∀ g h i,
        NgramTokenizer.token_to_id s' !! g = Some i →
        h ∈ corpus_windows (NgramTokenizer.n s) corpus →
        (∀ j, NgramTokenizer.token_to_id s' !! h = Some j → (i ≤ j)%nat) →
        (frequency h (corpus_windows (NgramTokenizer.n s) corpus)
         ≤ frequency g (corpus_windows (NgramTokenizer.n s) corpus))%nat.
Proof.
  destruct (train_spec corpus s) as (s' & Htrain & _ & _ & Htok & _ & Hsize).
  exists s'. split; [done|].
  destruct (ranked_full (NgramTokenizer.n s) (NgramTokenizer.vocab_size s) corpus)
    as (Hrank & Hall & Hsorted).
  cbv zeta in *.
  set (ws := corpus_windows (NgramTokenizer.n s) corpus) in *.
  intros g h i Hg Hh Hle.
  apply Htok in Hg. apply Hrank in Hg as [Hi Hg].
  destruct (Hall h Hh) as [j Hj].
  destruct (decide (j < i)%nat) as [Hji|Hji].
  { assert (i ≤ j)%nat; [|lia]. apply Hle. apply Htok. apply Hrank.
    split; [lia|done]. }
  destruct (decide (i = j)) as [->|Hne]; [by simplify_eq|].
  apply (ranks_before_key snd (λ x y, occurs_first ws x.1 y.1)
           (g, frequency g ws) (h, frequency h ws)).
  eapply (StronglySorted_lookup _ _ i j _ _ Hsorted Hg Hj). lia.
Qed.
End train_more.

(** X7: [train] invents nothing: for every [vocab_size], each key of
    [token_to_id] and each value of [id_to_token] is a window of some
    document of the corpus. *)
Theorem train_vocabulary_observed (U : UnicodeTables) (corpus : list text)
    (s : NgramTokenizer.t) :
  ∃ s', NgramTokenizer.train corpus s = Ok (tt, s')
    ∧ (∀ (g : Ngram) (i : nat),
         NgramTokenizer.token_to_id s' !! g = Some i →
         ∃ text, text ∈ corpus
                 ∧ g ∈ ngrams_of (NgramTokenizer.n s) (convert_text_to_words text))
    ∧ (∀ (g : Ngram) (i : nat),
         NgramTokenizer.id_to_token s' !! i = Some g →
         ∃ text, text ∈ corpus
                 ∧ g ∈ ngrams_of (NgramTokenizer.n s) (convert_text_to_words text)).
Proof.
  destruct (train_spec corpus s) as (s' & Htrain & _ & _ & Htok & Hid & _).
  exists s'. split; [done|].
  destruct (ranked_spec (NgramTokenizer.n s) (NgramTokenizer.vocab_size s) corpus)
    as (_ & Hcount & _).
  cbv zeta in *.
  assert (Hobs : ∀ (g : Ngram) (i : nat),
    (NgramTokenizer.rank_ngrams (NgramTokenizer.vocab_size s)
       (NgramTokenizer.count_ngrams (NgramTokenizer.n s) corpus)).*1 !! i = Some g →
    ∃ text, text ∈ corpus
            ∧ g ∈ ngrams_of (NgramTokenizer.n s) (convert_text_to_words text)).
  { intros g i Hi. rewrite list_lookup_fmap in Hi.
    destruct (_ !! i) as [[g' c]|] eqn:Hr; simplify_eq/=.
    apply corpus_windows_elem. eapply Hcount, list_elem_of_lookup_2, Hr. }
  split; intros g i Hg; apply (Hobs g i); [by apply Htok|by apply Hid].
Qed.

(** X8: with [n >= 1], every key of the vocabulary is a tuple of exactly [n]
    Units. *)
Theorem train_keys_length (U : UnicodeTables) (corpus : list text)
    (s : NgramTokenizer.t) :
  1 ≤ NgramTokenizer.n s →
  ∃ s', NgramTokenizer.train corpus s = Ok (tt, s')
    ∧ ∀ (g : Ngram) (i : nat),
        NgramTokenizer.token_to_id s' !! g = Some i →
        Z.of_nat (length g) = NgramTokenizer.n s.
Proof.
  intros Hn.
  destruct (train_spec corpus s) as (s' & Htrain & _ & _ & Htok & _ & _).
  exists s'. split; [done|]. intros g i Hg%Htok.
  destruct (ranked_spec (NgramTokenizer.n s) (NgramTokenizer.vocab_size s) corpus)
    as (_ & Hcount & _).
  cbv zeta in *. rewrite list_lookup_fmap in Hg.
  destruct (_ !! i) as [[g' c]|] eqn:Hr; simplify_eq/=.
  destruct (Hcount g c (list_elem_of_lookup_2 _ _ _ Hr)) as [Hobs _].
  apply corpus_windows_elem in Hobs as (text & _ & Hin).
  apply list_elem_of_lookup in Hin as [j Hj].
  by destruct (ngrams_of_lookup _ _ _ _ Hn Hj).
Qed.

Lemma train_keys_length_witness :
  1 ≤ 2
  ∧ ∃ s',
      @NgramTokenizer.train ascii_tables [str "b a a c"]
        (NgramTokenizer.Build (Tokenizer.Build (-1) ∅ ∅) 2) = Ok (tt, s')
      ∧ NgramTokenizer.token_to_id s' !! [str "a"; str "c"] = Some 2%nat
      ∧ Z.of_nat (length [str "a"; str "c"]) = 2.
Proof.
  split; [lia|].
  destruct (train_keys_length ascii_tables [str "b a a c"]
              (NgramTokenizer.Build (Tokenizer.Build (-1) ∅ ∅) 2))
    as (s' & Htrain & Hlen); [simpl; lia|].
  exists s'. split; [exact Htrain|].
  assert (Hkey : NgramTokenizer.token_to_id s' !! [str "a"; str "c"] = Some 2%nat).
  { rewrite train_eq in Htrain. injection Htrain as <-. vm_compute. reflexivity. }
  split; [exact Hkey|]. exact (Hlen _ _ Hkey).
Defined.

(** X9: the size of the vocabulary after [train], with [D] distinct n-grams
    in the corpus: [D] for the sentinel -1, [min(vocab_size, D)] for a
    [vocab_size] of zero or more, [max(0, D + vocab_size)] below -1; and
    [__len__] returns it. *)
Theorem train_size (U : UnicodeTables) (corpus : list text)
    (s : NgramTokenizer.t) :
  ∃ s', NgramTokenizer.train corpus s = Ok (tt, s')
    ∧ (∃ size_, NgramTokenizer.len s' = Ok (size_, s')
         ∧ Z.of_nat size_
           = if decide (NgramTokenizer.vocab_size s = -1)
             then Z.of_nat (distinct (corpus_windows (NgramTokenizer.n s) corpus))
             else if decide (NgramTokenizer.vocab_size s < 0)
             then Z.max 0 (Z.of_nat (distinct (corpus_windows (NgramTokenizer.n s) corpus))
                           + NgramTokenizer.vocab_size s)
             else Z.min (NgramTokenizer.vocab_size s)
                        (Z.of_nat (distinct (corpus_windows (NgramTokenizer.n s) corpus)))).
Proof.
  destruct (train_spec corpus s) as (s' & Htrain & _ & _ & _ & _ & Hsize).
  exists s'. split; [done|]. eexists. split; [reflexivity|].
  destruct (ranked_spec (NgramTokenizer.n s) (NgramTokenizer.vocab_size s) corpus)
    as (_ & _ & _ & Hlen & _).
  cbv zeta in *. rewrite Hsize, Hlen. unfold PyList.clamp.
  repeat case_decide; lia.
Qed.

(** X10: for every [vocab_size], the vocabulary is a prefix of the unbounded
    one: an n-gram has id [i] exactly when [i] is below the size and the
    n-gram has id [i] after training with the sentinel -1. *)
Theorem train_prefix_of_unbounded (U : UnicodeTables) (corpus : list text)
    (s : NgramTokenizer.t) :
  ∃ s' su,
    NgramTokenizer.train corpus s = Ok (tt, s')
    ∧ NgramTokenizer.train corpus
        (NgramTokenizer.Build (Tokenizer.Build (-1) ∅ ∅) (NgramTokenizer.n s))
      = Ok (tt, su)
    ∧ ∀ (g : Ngram) (i : nat),
        NgramTokenizer.token_to_id s' !! g = Some i
        ↔ (i < size (NgramTokenizer.token_to_id s'))%nat
          ∧ NgramTokenizer.token_to_id su !! g = Some i.
Proof.
  destruct (train_spec corpus s) as (s' & Htrain & _ & _ & Htok & _ & Hsize).
  destruct (train_spec corpus
              (NgramTokenizer.Build (Tokenizer.Build (-1) ∅ ∅) (NgramTokenizer.n s)))
    as (su & Htrainu & _ & _ & Htoku & _ & _).
  exists s', su. do 2 (split; [done|]).
  destruct (ranked_full (NgramTokenizer.n s) (NgramTokenizer.vocab_size s) corpus)
    as (Hrank & _).
  destruct (ranked_full (NgramTokenizer.n s) (-1) corpus) as (Hranku & _).
  cbv zeta in *. cbn [NgramTokenizer.n NgramTokenizer.vocab_size NgramTokenizer.super
    Tokenizer.vocab_size] in *.
  intros g i. rewrite Htok, Htoku, Hrank, Hranku, Hsize. split.
  - intros [Hi Hg]. split; [done|]. split; [|done]. by eapply lookup_lt_Some.
  - intros [Hi [_ Hg]]. done.
Qed.

(** X11: [train] keeps the most frequent n-grams: an n-gram of the corpus
    that is not in the vocabulary is not more frequent than any n-gram that
    is. *)
Theorem train_keeps_most_frequent (U : UnicodeTables) (corpus : list text)
    (s : NgramTokenizer.t) :
  ∃ s', NgramTokenizer.train corpus s = Ok (tt, s')
    ∧ ∀ (g h : Ngram) (i : nat),
        NgramTokenizer.token_to_id s' !! g = Some i →
        h ∈ corpus_windows (NgramTokenizer.n s) corpus →
        NgramTokenizer.token_to_id s' !! h = None →
        (frequency h (corpus_windows (NgramTokenizer.n s) corpus)
         ≤ frequency g (corpus_windows (NgramTokenizer.n s) corpus))%nat.
Proof.
  destruct (train_rank_le corpus s) as (s' & Htrain & Hle).
  exists s'. split; [done|]. intros g h i Hg Hh Hnone.
  apply (Hle g h i Hg Hh). intros j Hj. congruence.
Qed.

Lemma train_keeps_most_frequent_witness :
  ∃ s',
    @NgramTokenizer.train ascii_tables [str "b a a c"]
      (NgramTokenizer.Build (Tokenizer.Build 1 ∅ ∅) 1) = Ok (tt, s')
    ∧ NgramTokenizer.token_to_id s' !! [str "a"] = Some 0%nat
    ∧ [str "b"] ∈ @corpus_windows ascii_tables 1 [str "b a a c"]
    ∧ NgramTokenizer.token_to_id s' !! [str "b"] = None
    ∧ (frequency [str "b"] (@corpus_windows ascii_tables 1 [str "b a a c"])
       ≤ frequency [str "a"] (@corpus_windows ascii_tables 1 [str "b a a c"]))%nat.
Proof.
  destruct (train_keeps_most_frequent ascii_tables [str "b a a c"]
              (NgramTokenizer.Build (Tokenizer.Build 1 ∅ ∅) 1))
    as (s' & Htrain & Hle).
  exists s'. split; [exact Htrain|].
  assert (Ha : NgramTokenizer.token_to_id s' !! [str "a"] = Some 0%nat).
  { rewrite train_eq in Htrain. injection Htrain as <-. vm_compute. reflexivity. }
  assert (Hb : NgramTokenizer.token_to_id s' !! [str "b"] = None).
  { rewrite train_eq in Htrain. injection Htrain as <-. vm_compute. reflexivity. }
  assert (Hobs : [str "b"] ∈ @corpus_windows ascii_tables 1 [str "b a a c"]).
  { vm_compute. left. }
  split; [exact Ha|]. split; [exact Hobs|]. split; [exact Hb|].
  exact (Hle _ _ _ Ha Hobs Hb).
Defined.

(** X12: the n-gram with id 0 is a most frequent n-gram of the corpus. *)
Theorem train_id_zero_most_frequent (U : UnicodeTables) (corpus : list text)
    (s : NgramTokenizer.t) :
  ∃ s', NgramTokenizer.train corpus s = Ok (tt, s')
    ∧ ∀ (g h : Ngram),
        NgramTokenizer.id_to_token s' !! 0%nat = Some g →
        h ∈ corpus_windows (NgramTokenizer.n s) corpus →
        (frequency h (corpus_windows (NgramTokenizer.n s) corpus)
         ≤ frequency g (corpus_windows (NgramTokenizer.n s) corpus))%nat.
Proof.
  destruct (train_rank_le corpus s) as (s' & Htrain & Hle).
  destruct (train_spec corpus s) as (s'' & Htrain' & _ & _ & Htok & Hid & _).
  assert (s'' = s') as -> by congruence.
  exists s'. split; [done|]. intros g h Hg Hh.
  apply (Hle g h 0%nat); [|done|intros; lia].
  apply Htok. by apply Hid.
Qed.

Section train_edge.
Context `{U : UnicodeTables}.
Implicit Types (s : NgramTokenizer.t) (corpus : list text) (g : Ngram).

Lemma ngrams_of_short (n : Z) (words : list Unit) :
  Z.of_nat (length words) < n → ngrams_of n words = [].
Proof.
  intros Hk. apply length_zero_iff_nil. rewrite ngrams_of_length. lia.
Qed.

(** With the sentinel -1 the keys are the windows of the corpus. *)
Lemma train_unbounded_keys corpus s :
  NgramTokenizer.vocab_size s = -1 →
  ∃ s', NgramTokenizer.train corpus s = Ok (tt, s')
    ∧ (∀ g, is_Some (NgramTokenizer.token_to_id s' !! g)
            ↔ g ∈ corpus_windows (NgramTokenizer.n s) corpus)
    ∧ size (NgramTokenizer.token_to_id s')
      = distinct (corpus_windows (NgramTokenizer.n s) corpus).
Proof.
  intros Hvs.
  destruct (train_spec corpus s) as (s' & Htrain & _ & _ & Htok & _ & Hsize).
  exists s'. split; [done|].
  destruct (ranked_spec (NgramTokenizer.n s) (NgramTokenizer.vocab_size s) corpus)
    as (_ & Hcount & _ & Hlen & _ & Hall).
  cbv zeta in *. split.
  - intros g. split.
    + intros [i Hi%Htok]. rewrite list_lookup_fmap in Hi.
      destruct (_ !! i) as [[g' c]|] eqn:Hr; simplify_eq/=.
      eapply Hcount, list_elem_of_lookup_2, Hr.
    + intros Hg. apply (Hall Hvs) in Hg.
      apply list_elem_of_lookup in Hg as [i Hi]. exists i. by apply Htok.
  - rewrite Hsize, Hlen. case_decide; [lia|done].
Qed.
End train_edge.

(** X13: when every document has fewer than [n] Units, in particular on the
    empty corpus, [train] leaves both dicts empty and raises nothing. *)
Theorem train_short_documents (U : UnicodeTables) (corpus : list text)
    (s : NgramTokenizer.t) :
  Forall (λ text, Z.of_nat (length (convert_text_to_words text)) < NgramTokenizer.n s)
         corpus →
  ∃ s', NgramTokenizer.train corpus s = Ok (tt, s')
    ∧ NgramTokenizer.token_to_id s' = ∅
    ∧ NgramTokenizer.id_to_token s' = ∅
    ∧ NgramTokenizer.len s' = Ok (0%nat, s').
Proof.
  intros Hshort.
  destruct (train_spec corpus s) as (s' & Htrain & _ & _ & Htok & Hid & Hsize).
  exists s'. split; [done|].
  destruct (ranked_spec (NgramTokenizer.n s) (NgramTokenizer.vocab_size s) corpus)
    as (_ & Hcount & _).
  cbv zeta in *.
  set (ranked := NgramTokenizer.rank_ngrams _ _) in *.
  assert (Hnil : ranked = []).
  { apply elem_of_nil_inv. intros [g c] [Hg _]%Hcount.
    apply corpus_windows_elem in Hg as (text & Htext & Hg).
    eapply Forall_forall in Hshort; [|exact Htext].
    rewrite ngrams_of_short in Hg by done. by apply elem_of_nil in Hg. }
  assert (Hempty : NgramTokenizer.token_to_id s' = ∅).
  { apply map_size_empty_iff. by rewrite Hsize, Hnil. }
  split; [done|]. split.
  - apply map_empty. intros i. apply eq_None_not_Some. intros [g Hg%Hid].
    by rewrite Hnil in Hg.
  - unfold NgramTokenizer.len, get_attr, mbind, M_bind, mret, M_ret.
    by rewrite Hempty, map_size_empty.
Qed.

Lemma train_short_documents_witness :
  Forall (λ text, Z.of_nat (length (@convert_text_to_words ascii_tables text)) < 3)
         [str "a b"; str "c"; str ""]
  ∧ ∃ s',
      @NgramTokenizer.train ascii_tables [str "a b"; str "c"; str ""]
        (NgramTokenizer.Build (Tokenizer.Build (-1) ∅ ∅) 3) = Ok (tt, s')
      ∧ NgramTokenizer.token_to_id s' = ∅
      ∧ NgramTokenizer.id_to_token s' = ∅.
Proof.
  assert (Hshort : Forall
    (λ text, Z.of_nat (length (@convert_text_to_words ascii_tables text)) < 3)
    [str "a b"; str "c"; str ""]).
  { repeat constructor. }
  split; [exact Hshort|].
  destruct (train_short_documents ascii_tables [str "a b"; str "c"; str ""]
              (NgramTokenizer.Build (Tokenizer.Build (-1) ∅ ∅) 3) Hshort)
    as (s' & Htrain & HT & HI & _).
  by exists s'.
Defined.

(** X14: with the sentinel -1 the order of the documents does not matter for
    which n-grams are in the vocabulary, nor for their frequencies: training
    on a permutation of the corpus gives the same keys and the same size. *)
Theorem train_unbounded_permutation (U : UnicodeTables) (corpus corpus' : list text)
    (s : NgramTokenizer.t) :
  NgramTokenizer.vocab_size s = -1 →
  corpus ≡ₚ corpus' →
  ∃ s1 s2,
    NgramTokenizer.train corpus s = Ok (tt, s1)
    ∧ NgramTokenizer.train corpus' s = Ok (tt, s2)
    ∧ dom (NgramTokenizer.token_to_id s1) =@{gset Ngram} dom (NgramTokenizer.token_to_id s2)
    ∧ size (NgramTokenizer.token_to_id s1) = size (NgramTokenizer.token_to_id s2)
    ∧ ∀ g : Ngram,
        frequency g (corpus_windows (NgramTokenizer.n s) corpus)
        = frequency g (corpus_windows (NgramTokenizer.n s) corpus').
Proof.
  intros Hvs Hperm.
  destruct (train_unbounded_keys corpus s Hvs) as (s1 & Htrain1 & Hkeys1 & Hsize1).
  destruct (train_unbounded_keys corpus' s Hvs) as (s2 & Htrain2 & Hkeys2 & Hsize2).
  exists s1, s2. do 2 (split; [done|]).
  assert (Hws : corpus_windows (NgramTokenizer.n s) corpus
                ≡ₚ corpus_windows (NgramTokenizer.n s) corpus').
  { unfold corpus_windows. by rewrite Hperm. }
  split_and!.
  - apply set_eq. intros g. rewrite !elem_of_dom, Hkeys1, Hkeys2. by rewrite Hws.
  - rewrite Hsize1, Hsize2. unfold distinct.
    apply Permutation_length, NoDup_Permutation; [apply NoDup_remove_dups..|].
    intros g. rewrite !elem_of_remove_dups. by rewrite Hws.
  - intros g. unfold frequency. by rewrite Hws.
Qed.

Lemma train_unbounded_permutation_witness :
  [str "a b"; str "c a"] ≡ₚ [str "c a"; str "a b"]
  ∧ ∃ s1 s2,
      @NgramTokenizer.train ascii_tables [str "a b"; str "c a"]
        (NgramTokenizer.Build (Tokenizer.Build (-1) ∅ ∅) 1) = Ok (tt, s1)
      ∧ @NgramTokenizer.train ascii_tables [str "c a"; str "a b"]
          (NgramTokenizer.Build (Tokenizer.Build (-1) ∅ ∅) 1) = Ok (tt, s2)
      ∧ NgramTokenizer.token_to_id s1 !! [str "b"] = Some 1%nat
      ∧ NgramTokenizer.token_to_id s2 !! [str "b"] = Some 2%nat
      ∧ dom (NgramTokenizer.token_to_id s1)
        =@{gset Ngram} dom (NgramTokenizer.token_to_id s2).
Proof.
  assert (Hperm : [str "a b"; str "c a"] ≡ₚ [str "c a"; str "a b"])
    by apply Permutation_swap.
  split; [exact Hperm|].
  destruct (train_unbounded_permutation ascii_tables _ _
              (NgramTokenizer.Build (Tokenizer.Build (-1) ∅ ∅) 1) eq_refl Hperm)
    as (s1 & s2 & Htrain1 & Htrain2 & Hdom & _).
  exists s1, s2. split; [exact Htrain1|]. split; [exact Htrain2|].
  split; [|split; [|exact Hdom]].
  - rewrite train_eq in Htrain1. injection Htrain1 as <-. vm_compute. reflexivity.
  - rewrite train_eq in Htrain2. injection Htrain2 as <-. vm_compute. reflexivity.
Defined.

(** ** More on [tokenize] *)

Lemma ngrams_of_one (words : list Unit) :
  ngrams_of 1 words = (λ w, [w]) <$> words.
Proof.
  apply list_eq. intros i. rewrite list_lookup_fmap.
  destruct (ngrams_of 1 words !! i) as [g|] eqn:Hg.
  - destruct (ngrams_of_lookup 1 words i g ltac:(lia) Hg) as [-> Hlen].
    apply lookup_lt_Some in Hg. rewrite ngrams_of_length in Hg.
    destruct (words !! i) as [w|] eqn:Hw.
    + by rewrite (drop_S _ _ _ Hw).
    + apply lookup_ge_None in Hw. lia.
  - apply lookup_ge_None in Hg. rewrite ngrams_of_length in Hg.
    rewrite lookup_ge_None_2; [done|lia].
Qed.

Lemma filter_all {A} (P : A → Prop) `{∀ x, Decision (P x)} (l : list A) :
  Forall P l → filter P l = l.
Proof.
  induction 1 as [|x l Hx _ IH]; [done|].
  by rewrite filter_cons_True, IH.
Qed.

(** X15: a text with fewer than [n] Units, in particular the empty text for
    [n >= 1], gives the empty result in both modes, whatever the vocabulary. *)
Theorem tokenize_short_text (U : UnicodeTables) (text : text)
    (s : NgramTokenizer.t) :
  Z.of_nat (length (convert_text_to_words text)) < NgramTokenizer.n s →
  NgramTokenizer.tokenize text false s = Ok (Ngrams [], s)
  ∧ NgramTokenizer.tokenize text true s = Ok (Ids [], s).
Proof.
  intros Hshort. split.
  - by rewrite tokenize_ngrams, ngrams_of_short.
  - destruct (tokenize_ids text s) as (ids & Hids & Hall).
    rewrite ngrams_of_short in Hall by done.
    rewrite filter_nil in Hall. by apply Forall2_nil_inv_l in Hall as ->.
Qed.

Lemma tokenize_short_text_witness :
  ∃ s',
    @NgramTokenizer.train ascii_tables [str "b a a c"]
      (NgramTokenizer.Build (Tokenizer.Build (-1) ∅ ∅) 2) = Ok (tt, s')
    ∧ Z.of_nat (length (@convert_text_to_words ascii_tables (str "a"))) < NgramTokenizer.n s'
    ∧ @NgramTokenizer.tokenize ascii_tables (str "a") true s' = Ok (Ids [], s')
    ∧ @NgramTokenizer.tokenize ascii_tables (str "") false s' = Ok (Ngrams [], s').
Proof.
  eexists. split; [apply train_eq|].
  split; [vm_compute; reflexivity|]. split.
  - apply (tokenize_short_text ascii_tables (str "a")). vm_compute. reflexivity.
  - apply (tokenize_short_text ascii_tables (str "")). vm_compute. reflexivity.
Defined.

(** X16: both modes return equally many items, at most the number of
    windows of the text. *)
Theorem tokenize_length (U : UnicodeTables) (text : text) (s : NgramTokenizer.t) :
  ∃ gs ids,
    NgramTokenizer.tokenize text false s = Ok (Ngrams gs, s)
    ∧ NgramTokenizer.tokenize text true s = Ok (Ids ids, s)
    ∧ length ids = length gs
    ∧ Z.of_nat (length gs)
      ≤ Z.max 0 (Z.of_nat (length (convert_text_to_words text)) - NgramTokenizer.n s + 1).
Proof.
  destruct (tokenize_ids text s) as (ids & Hids & Hall).
  eexists _, ids. split; [apply tokenize_ngrams|]. split; [done|]. split.
  - symmetry. by eapply Forall2_length.
  - pose proof (length_filter (λ g, is_Some (NgramTokenizer.token_to_id s !! g))
                  (ngrams_of (NgramTokenizer.n s) (convert_text_to_words text))) as Hle.
    rewrite ngrams_of_length in Hle. lia.
Qed.

(** X17: after [train], every id that [tokenize] returns is below
    [len(tokenizer)]. *)
Theorem tokenize_ids_in_range (U : UnicodeTables) (corpus : list text) (text : text)
    (s : NgramTokenizer.t) :
  ∃ s' ids,
    NgramTokenizer.train corpus s = Ok (tt, s')
    ∧ NgramTokenizer.tokenize text true s' = Ok (Ids ids, s')
    ∧ Forall (λ i, (i < size (NgramTokenizer.token_to_id s'))%nat) ids.
Proof.
  destruct (train_spec corpus s) as (s' & Htrain & _ & _ & Htok & _ & Hsize).
  destruct (tokenize_ids text s') as (ids & Hids & Hall).
  exists s', ids. do 2 (split; [done|]).
  apply Forall_forall. intros i Hi.
  apply list_elem_of_lookup in Hi as [j Hj].
  destruct (Forall2_lookup_r _ _ _ _ _ Hall Hj) as (g & _ & Hg).
  apply Htok in Hg. cbv zeta in Hsize. rewrite Hsize.
  apply lookup_lt_Some in Hg. by rewrite length_fmap in Hg.
Qed.

(** X18: after [train], the ids that [tokenize] returns decode through
    [id_to_token] to the tuples it returns in the other mode, position by
    position. *)
Theorem tokenize_ids_decode (U : UnicodeTables) (corpus : list text) (text : text)
    (s : NgramTokenizer.t) :
  ∃ s' gs ids,
    NgramTokenizer.train corpus s = Ok (tt, s')
    ∧ NgramTokenizer.tokenize text false s' = Ok (Ngrams gs, s')
    ∧ NgramTokenizer.tokenize text true s' = Ok (Ids ids, s')
    ∧ Forall2 (λ g i, NgramTokenizer.id_to_token s' !! i = Some g) gs ids.
Proof.
  destruct (train_spec corpus s) as (s' & Htrain & _ & _ & Htok & Hid & _).
  destruct (tokenize_ids text s') as (ids & Hids & Hall).
  eexists s', _, ids. split; [done|]. split; [apply tokenize_ngrams|].
  split; [done|].
  eapply Forall2_impl; [exact Hall|].
  intros g i Hg. cbv beta in Hg. apply Hid. by apply Htok.
Qed.

(** X19: after [train] with the sentinel -1, a document of the corpus is
    tokenized without loss: all its windows are returned. *)
Theorem tokenize_training_document (U : UnicodeTables) (corpus : list text)
    (text : text) (s : NgramTokenizer.t) :
  NgramTokenizer.vocab_size s = -1 →
  text ∈ corpus →
  ∃ s',
    NgramTokenizer.train corpus s = Ok (tt, s')
    ∧ NgramTokenizer.tokenize text false s'
      = Ok (Ngrams (ngrams_of (NgramTokenizer.n s) (convert_text_to_words text)), s').
Proof.
  intros Hvs Htext.
  destruct (train_unbounded_keys corpus s Hvs) as (s' & Htrain & Hkeys & _).
  destruct (train_spec corpus s) as (s'' & Htrain' & Hn & _).
  assert (s'' = s') as -> by congruence.
  exists s'. split; [done|]. rewrite tokenize_ngrams, Hn. do 3 f_equal.
  apply filter_all. apply Forall_forall. intros g Hg.
  apply Hkeys, corpus_windows_elem. by exists text.
Qed.

Lemma tokenize_training_document_witness :
  str "c a" ∈ [str "a b"; str "c a"]
  ∧ ∃ s',
      @NgramTokenizer.train ascii_tables [str "a b"; str "c a"]
        (NgramTokenizer.Build (Tokenizer.Build (-1) ∅ ∅) 2) = Ok (tt, s')
      ∧ @NgramTokenizer.tokenize ascii_tables (str "c a") false s'
        = Ok (Ngrams [[str "c"; str "a"]], s').
Proof.
  assert (Hin : str "c a" ∈ [str "a b"; str "c a"]) by (right; left).
  split; [exact Hin|].
  destruct (tokenize_training_document ascii_tables [str "a b"; str "c a"]
              (str "c a") (NgramTokenizer.Build (Tokenizer.Build (-1) ∅ ∅) 2)
              eq_refl Hin) as (s' & Htrain & Htok).
  exists s'. split; [exact Htrain|]. exact Htok.
Defined.

(** X20: an [NgramTokenizer] with [n = 1] and the sentinel -1, trained on a
    corpus, returns for a document of the corpus the Units that
    [ReturnWordsTokenizer.tokenize] returns, each as a 1-tuple. *)
Theorem unigram_agrees_with_words (U : UnicodeTables) (corpus : list text)
    (text : text) (flag : bool) (s : NgramTokenizer.t) (w : Tokenizer.t) :
  NgramTokenizer.n s = 1 →
  NgramTokenizer.vocab_size s = -1 →
  text ∈ corpus →
  ∃ s' words,
    NgramTokenizer.train corpus s = Ok (tt, s')
    ∧ ReturnWordsTokenizer.tokenize text flag w = Ok (words, w)
    ∧ NgramTokenizer.tokenize text false s' = Ok (Ngrams ((λ u, [u]) <$> words), s').
Proof.
  intros Hn Hvs Htext.
  destruct (train_unbounded_keys corpus s Hvs) as (s' & Htrain & Hkeys & _).
  destruct (train_spec corpus s) as (s'' & Htrain' & Hn' & _).
  assert (s'' = s') as -> by congruence.
  exists s', (convert_text_to_words text). split; [done|]. split; [done|].
  rewrite tokenize_ngrams, Hn', Hn, <-ngrams_of_one. do 3 f_equal.
  apply filter_all. apply Forall_forall. intros g Hg.
  apply Hkeys, corpus_windows_elem. exists text. by rewrite Hn.
Qed.

Lemma unigram_agrees_with_words_witness :
  str "c a" ∈ [str "a b"; str "c a"]
  ∧ ∃ s',
      @NgramTokenizer.train ascii_tables [str "a b"; str "c a"]
        (NgramTokenizer.Build (Tokenizer.Build (-1) ∅ ∅) 1) = Ok (tt, s')
      ∧ @ReturnWordsTokenizer.tokenize ascii_tables (str "c a") true
          (Tokenizer.Build 1000 ∅ ∅)
        = Ok ([str "c"; str "a"], Tokenizer.Build 1000 ∅ ∅)
      ∧ @NgramTokenizer.tokenize ascii_tables (str "c a") false s'
        = Ok (Ngrams [[str "c"]; [str "a"]], s').
Proof.
  assert (Hin : str "c a" ∈ [str "a b"; str "c a"]) by (right; left).
  split; [exact Hin|].
  destruct (unigram_agrees_with_words ascii_tables [str "a b"; str "c a"]
              (str "c a") true (NgramTokenizer.Build (Tokenizer.Build (-1) ∅ ∅) 1)
              (Tokenizer.Build 1000 ∅ ∅) eq_refl eq_refl Hin)
    as (s' & words & Htrain & Hwords & Htok).
  exists s'. split; [exact Htrain|].
  injection Hwords as <-. split; [reflexivity|]. exact Htok.
Defined.

Lemma train_id_zero_most_frequent_witness :
  ∃ s',
    @NgramTokenizer.train ascii_tables [str "b a a c"]
      (NgramTokenizer.Build (Tokenizer.Build 2 ∅ ∅) 1) = Ok (tt, s')
    ∧ NgramTokenizer.id_to_token s' !! 0%nat = Some [str "a"]
    ∧ [str "c"] ∈ @corpus_windows ascii_tables 1 [str "b a a c"]
    ∧ (frequency [str "c"] (@corpus_windows ascii_tables 1 [str "b a a c"])
       ≤ frequency [str "a"] (@corpus_windows ascii_tables 1 [str "b a a c"]))%nat.
Proof.
  destruct (train_id_zero_most_frequent ascii_tables [str "b a a c"]
              (NgramTokenizer.Build (Tokenizer.Build 2 ∅ ∅) 1))
    as (s' & Htrain & Hmax).
  exists s'. split; [exact Htrain|].
  assert (Hzero : NgramTokenizer.id_to_token s' !! 0%nat = Some [str "a"]).
  { rewrite train_eq in Htrain. injection Htrain as <-. vm_compute. reflexivity. }
  assert (Hobs : [str "c"] ∈ @corpus_windows ascii_tables 1 [str "b a a c"]).
  { vm_compute. do 3 right. left. }
  split; [exact Hzero|]. split; [exact Hobs|]. exact (Hmax _ _ Hzero Hobs).
Defined.
